(** * The IELTS evaluation gRPC service

    A shallow embedding of the three Python modules of the service

    - [ielts/ielts_repository.py]  the client of the external model API,
    - [ielts/ielts_service.py]     the handler that delegates to that client,
    - [server/python_server.py]    the greeting handler, the stub evaluation
                                   handler and the server bootstrap,

    together with the properties of them that the specification states.

    Python [str] is [string], Python [int] is [Z], a [dict] with string keys
    is a [gmap string _].  A handler is a program over one kind of outside
    event, the exchange of one HTTP message with the network; one call of
    [requests.post] is one such exchange or, when it follows redirects,
    several.  Exceptions are part of the program type and propagate through
    [bind], as they do through Python code that has no [try]. *)

From Stdlib Require Import ZArith List Ascii String.
From stdpp Require Import base option strings gmap list.

Open Scope Z_scope.
Open Scope string_scope.

(** ** Values that cross the HTTP boundary *)

(** A decoded JSON document, as [json.loads] and [response.json()] produce
    it and as the [json=] argument of [requests.post] takes it.  Objects are
    Python dicts.  The service computes with no number; a [float] is kept
    as its binary64 bit pattern. *)
#[warnings="-register-all"]
Inductive json : Type :=
| JNull
| JBool (b : bool)
| JInt (n : Z)
| JFloat (bits : Z)
| JStr (s : string)
| JArr (items : list json)
| JObj (fields : gmap string json).

(** The exceptions that can leave the code under study. *)
Inductive exn : Type :=
| ConnectionError          (* requests: no connection to the peer *)
| Timeout                  (* requests: the exchange timed out *)
| TooManyRedirects         (* requests: more than 30 redirects in a row *)
| InvalidURL               (* requests: a redirect to no usable address *)
| JSONDecodeError          (* response.json() on a body that is not JSON *)
| KeyError (key : string)  (* d[key] on a dict without that key *)
| TypeError.               (* subscript or field assignment of the wrong type *)

Inductive http_method : Type := GET | POST.

(** The arguments of one [requests] call. *)
Record HttpRequest : Type := mkHttpRequest {
  method : http_method;
  url : string;
  headers : gmap string string;
  json_payload : json
}.

(** A [requests.Response]: the status code, the Location header when the
    response has one, and the body as [response.json()] decodes it ([None]
    when the body is not JSON). *)
Record Response : Type := mkResponse {
  status_code : Z;
  location : option string;
  body_json : option json
}.

(** A message that goes out to the network: the one a call of [requests]
    is made with, or the one [requests] makes of the message before and of
    the redirect it got for it (the target resolved against the earlier
    address, method, body, headers and cookies rebuilt as the library
    does). *)
Inductive Message : Type :=
| Sent (rq : HttpRequest)
| FollowUp (previous : Message) (redirect : Response).

(** The ways an exchange fails without an HTTP response.  The last one is
    for follow-ups only: the Location of the redirect is no address that
    [requests] can send a message to. *)
Inductive transport_fault : Type :=
| ConnectionRefused
| DnsFailure
| TimedOut
| UnusableTarget.

(** The exception [requests] raises for each of them. *)
Definition requests_exception (f : transport_fault) : exn :=
  match f with
  | ConnectionRefused | DnsFailure => ConnectionError
  | TimedOut => Timeout
  | UnusableTarget => InvalidURL
  end.

(** What the network does with one exchange: it fails below HTTP, or it
    delivers a response. *)
Inductive HttpOutcome : Type :=
| TransportFailure (f : transport_fault)
| Delivered (r : Response).

(** ** Programs *)

(** A terminating computation that may exchange HTTP messages with the
    outside and may end in an exception. *)
Inductive Prog (A : Type) : Type :=
| Ret (a : A)
| Raise (e : exn)
| Call (rq : Message) (k : HttpOutcome -> Prog A).

Arguments Ret {A} a.
Arguments Raise {A} e.
Arguments Call {A} rq k.

Fixpoint bind {A B : Type} (p : Prog A) (f : A -> Prog B) : Prog B :=
  match p with
  | Ret a => f a
  | Raise e => Raise e
  | Call rq k => Call rq (fun o => bind (k o) f)
  end.

#[global] Instance Prog_ret : MRet Prog := @Ret.
#[global] Instance Prog_bind : MBind Prog := fun A B f p => bind p f.
#[global] Instance Prog_fmap : FMap Prog :=
  fun A B f p => bind p (fun a => Ret (f a)).

(** The result of a finished computation. *)
Inductive result (A : Type) : Type :=
| Returned (a : A)
| Raised (e : exn).

Arguments Returned {A} a.
Arguments Raised {A} e.

(** Running a program against the answers of the network, given in the
    order the exchanges happen.  [None]: the program is still waiting for
    an answer that the list does not hold. *)
Fixpoint run {A : Type} (p : Prog A) (answers : list HttpOutcome)
  : option (result A) :=
  match p with
  | Ret a => Some (Returned a)
  | Raise e => Some (Raised e)
  | Call rq k =>
      match answers with
      | [] => None
      | o :: rest => run (k o) rest
      end
  end.

(** The messages a program sends while it consumes [answers]. *)
Fixpoint sent {A : Type} (p : Prog A) (answers : list HttpOutcome)
  : list Message :=
  match p with
  | Ret _ | Raise _ => []
  | Call rq k =>
      rq :: match answers with
            | [] => []
            | o :: rest => sent (k o) rest
            end
  end.

(** ** Library operations the code calls *)

(** The status codes that [requests] takes for a redirect. *)
Definition REDIRECT_STATI : list Z := [301; 302; 303; 307; 308].

Definition max_redirects : nat := 30.

(** [Session.get_redirect_target]: the Location of a response that has one
    and has a redirect status. *)
Definition get_redirect_target (resp : Response) : option string :=
  match location resp with
  | Some target =>
      if bool_decide (status_code resp ∈ REDIRECT_STATI) then Some target
      else None
  | None => None
  end.

(** The condition of the loop of [Session.resolve_redirects]: there is a
    target and it is not the empty text. *)
Definition follows (resp : Response) : bool :=
  match get_redirect_target resp with
  | Some target => negb (bool_decide (target = ""))
  | None => false
  end.

(** [Session.resolve_redirects], with the response [resp] to the message
    [req] in hand and [budget] redirects still allowed: as long as the
    response is a redirect the follow-up message is sent; the response that
    is no redirect is the result. *)
Fixpoint resolve_redirects (budget : nat) (req : Message) (resp : Response)
  : Prog Response :=
  if follows resp then
    match budget with
    | O => Raise TooManyRedirects
    | S budget' =>
        Call (FollowUp req resp)
             (fun o => match o with
                       | TransportFailure f => Raise (requests_exception f)
                       | Delivered r =>
                           resolve_redirects budget' (FollowUp req resp) r
                       end)
    end
  else Ret resp.

(** [requests.post(url, json=data, headers=headers)]: the message is sent,
    redirects are followed (the default of [allow_redirects]), and the last
    response is returned; a failure below HTTP, in any of the exchanges, is
    raised as an exception. *)
Definition requests_post (u : string) (data : json)
    (hdrs : gmap string string) : Prog Response :=
  let req :=
    Sent {| method := POST; url := u; headers := hdrs; json_payload := data |} in
  Call req
       (fun o => match o with
                 | TransportFailure f => Raise (requests_exception f)
                 | Delivered r => resolve_redirects max_redirects req r
                 end).

(** [response.json()]. *)
Definition response_json (r : Response) : Prog json :=
  match body_json r with
  | Some j => Ret j
  | None => Raise JSONDecodeError
  end.

(** [j[key]] for a string [key]: defined on dicts that hold the key. *)
Definition getitem (j : json) (key : string) : Prog json :=
  match j with
  | JObj d =>
      match d !! key with
      | Some v => Ret v
      | None => Raise (KeyError key)
      end
  | _ => Raise TypeError
  end.

(** ** Protocol messages *)

(** Modelled from the spec: the generated protobuf modules
    ([python_proto.ielts_pb2], [python_proto.claude.claude_pb2],
    [python_proto.helloworld_pb2]) are not among the sources.  Their
    messages are flat records of text fields, named as the code names
    them.  Two records of one module cannot share a field name: the fields
    of the incoming request carry the prefix [rq_], the echoed fields of the
    outgoing response the prefix [rs_]. *)
Module pb2.

(** The message [EvaluateIELTS] receives. *)
Record EvaluationRequest : Type := mkEvaluationRequest {
  rq_passage : string;
  rq_question : string;
  rq_student_response : string;
  rq_complex_sentences : string;
  rq_advanced_vocabulary : string;
  rq_cohesive_devices : string
}.

(** The message the handler hands to the client. *)
Record EvaluationRequestToClaude : Type := mkEvaluationRequestToClaude {
  passage : string;
  question : string;
  student_response : string;
  complex_sentences : string;
  advanced_vocabulary : string;
  cohesive_devices : string
}.

(** The message the client returns. *)
Record EvaluationResponseFromClaude : Type := mkEvaluationResponseFromClaude {
  evaluation : string
}.

(** The message [EvaluateIELTS] returns. *)
Record EvaluationResponseFromToDataBase : Type :=
  mkEvaluationResponseFromToDataBase {
  rs_passage : string;
  rs_question : string;
  rs_student_response : string;
  rs_complex_sentences : string;
  rs_advanced_vocabulary : string;
  rs_cohesive_devices : string;
  evaluation_from_claude : string
}.

Record HelloRequest : Type := mkHelloRequest { name : string }.
Record HelloReply : Type := mkHelloReply { message : string }.

(** A call as it arrives at the server, and a reply as it leaves. *)
Inductive rpc_request : Type :=
| SayHelloCall (r : HelloRequest)
| EvaluateIELTSCall (r : EvaluationRequest).

Inductive rpc_reply : Type :=
| SayHelloReply (r : HelloReply)
| EvaluateIELTSReply (r : EvaluationResponseFromToDataBase).

(** [EvaluationResponseFromClaude(evaluation=v)] for a decoded JSON value
    [v]: a keyword that is [None] is left out, so the field keeps its
    default, the empty text; a [str] is taken as it is; a text field takes
    nothing else. *)
Definition new_EvaluationResponseFromClaude (v : json)
  : Prog EvaluationResponseFromClaude :=
  match v with
  | JStr s => Ret {| evaluation := s |}
  | JNull => Ret {| evaluation := "" |}
  | _ => Raise TypeError
  end.

End pb2.

(** ** ielts/ielts_repository.py *)

Definition LF : string := String "010"%char "".

Module ielts_repository.
Import pb2.

Module ClaudeRepository.

Record t : Type := mk { api_url : string; api_key : string }.

Definition __init__ : t :=
  {| api_url := "https://api.anthropic.com/v1/messages";
     api_key := "sk-ant-REDACTED//" |}.

Definition build_headers (self : t) : gmap string string :=
  list_to_map [
    ("Content-Type", "application/json");
    ("X-API-Key", api_key self)
  ].

Definition build_prompt (request : EvaluationRequestToClaude) : string :=
  LF +:+
  "        Evaluate the following IELTS reading response:" +:+ LF +:+
  LF +:+
  "        Passage: " +:+ passage request +:+ LF +:+
  "        Question: " +:+ question request +:+ LF +:+
  "        Student Response: " +:+ student_response request +:+ LF +:+
  LF +:+
  "        Please consider the following aspects in your evaluation:" +:+ LF +:+
  "        1. Complex Sentences: " +:+ complex_sentences request +:+ LF +:+
  "        2. Advanced Vocabulary: " +:+ advanced_vocabulary request +:+ LF +:+
  "        3. Cohesive Devices: " +:+ cohesive_devices request +:+ LF +:+
  LF +:+
  "        Provide a detailed evaluation of the student's response, including strengths and areas for improvement." +:+ LF +:+
  "        ".

Definition build_data (prompt : string) : json :=
  JObj (list_to_map [
    ("model", JStr "claude-3-sonnet-20240229");
    ("messages",
      JArr [JObj (list_to_map [("role", JStr "user");
                               ("content", JStr prompt)])]);
    ("max_tokens", JInt 1000)
  ]).

Definition evaluate_ielts (self : t) (request : EvaluationRequestToClaude)
  : Prog EvaluationResponseFromClaude :=
  let headers := build_headers self in
  let prompt := build_prompt request in
  let data := build_data prompt in
  response ← requests_post (api_url self) data headers;
  if decide (status_code response = 200) then
    body ← response_json response;
    claude_evaluation ← getitem body "content";
    new_EvaluationResponseFromClaude claude_evaluation
  else
    Ret {| evaluation := "Error: Unable to get evaluation from Claude." |}.

End ClaudeRepository.

End ielts_repository.

(** ** ielts/ielts_service.py *)

Module ielts_service.
Import pb2.
Import ielts_repository.

Module IELTSService.

Record t : Type := mk { claude_repository : ClaudeRepository.t }.

Definition __init__ : t :=
  {| claude_repository := ClaudeRepository.__init__ |}.

Definition EvaluateIELTS (self : t) (request : EvaluationRequest)
  : Prog EvaluationResponseFromToDataBase :=
  let claude_request :=
    {| student_response := rq_student_response request;
       passage := rq_passage request;
       question := rq_question request;
       complex_sentences := rq_complex_sentences request;
       advanced_vocabulary := rq_advanced_vocabulary request;
       cohesive_devices := rq_cohesive_devices request |} in
  claude_response ←
    ClaudeRepository.evaluate_ielts (claude_repository self) claude_request;
  let response :=
    {| rs_student_response := rq_student_response request;
       rs_passage := rq_passage request;
       rs_question := rq_question request;
       rs_complex_sentences := rq_complex_sentences request;
       rs_advanced_vocabulary := rq_advanced_vocabulary request;
       rs_cohesive_devices := rq_cohesive_devices request;
       evaluation_from_claude := evaluation claude_response |} in
  Ret response.

End IELTSService.

End ielts_service.

(** ** The RPC framework *)

Module futures.

(** [futures.ThreadPoolExecutor(max_workers=n)]. *)
Record ThreadPoolExecutor : Type := mkThreadPoolExecutor {
  max_workers : nat
}.

End futures.

Module grpc.
Import pb2.

(** What a registered servicer does with a call: [None] when the call is
    for a method the servicer does not have. *)
Definition method_handler : Type := rpc_request -> option (Prog rpc_reply).

Inductive credentials : Type := Insecure | Secure.

(** The object [grpc.server(...)] returns. *)
Record Server : Type := mkServer {
  pool : futures.ThreadPoolExecutor;
  handlers : list method_handler;
  ports : list (string * credentials);
  started : bool
}.

Definition server (thread_pool : futures.ThreadPoolExecutor) : Server :=
  {| pool := thread_pool; handlers := []; ports := []; started := false |}.

Definition add_generic_rpc_handlers (h : method_handler) (srv : Server)
  : Server :=
  {| pool := pool srv; handlers := handlers srv ++ [h];
     ports := ports srv; started := started srv |}.

Definition add_insecure_port (srv : Server) (address : string) : Server :=
  {| pool := pool srv; handlers := handlers srv;
     ports := ports srv ++ [(address, Insecure)]; started := started srv |}.

Definition start (srv : Server) : Server :=
  {| pool := pool srv; handlers := handlers srv;
     ports := ports srv; started := true |}.

(** The first registered servicer that has the method takes the call. *)
Fixpoint dispatch (hs : list method_handler) (c : rpc_request)
  : option (Prog rpc_reply) :=
  match hs with
  | [] => None
  | h :: rest =>
      match h c with
      | Some p => Some p
      | None => dispatch rest c
      end
  end.

Definition digit_of (c : ascii) : option Z :=
  let n := Z.of_nat (nat_of_ascii c) in
  if decide (48 <= n <= 57) then Some (n - 48) else None.

(** The decimal number after the last colon of an address. *)
Fixpoint port_after_colon (s : string) (acc : option Z) : option Z :=
  match s with
  | EmptyString => acc
  | String c rest =>
      if decide (c = ":"%char) then port_after_colon rest (Some 0)
      else
        match digit_of c, acc with
        | Some d, Some a => port_after_colon rest (Some (10 * a + d))
        | _, _ => port_after_colon rest None
        end
  end.

Definition port_of (address : string) : option Z :=
  port_after_colon address None.

(** How a call ends for its caller. *)
Inductive rpc_status : Type :=
| OK (r : rpc_reply)
| UNKNOWN (e : exn)        (* the handler raised *)
| UNIMPLEMENTED.           (* no servicer has the method *)

Definition status_of_result (r : result rpc_reply) : rpc_status :=
  match r with
  | Returned v => OK v
  | Raised e => UNKNOWN e
  end.

(** A pool thread that is serving a call: the call, the answers the
    network has given to this thread so far, and what is left to do. *)
Record Worker : Type := mkWorker {
  w_call : rpc_request;
  w_answers : list HttpOutcome;
  w_prog : Prog rpc_reply
}.

Record Finished : Type := mkFinished {
  f_call : rpc_request;
  f_answers : list HttpOutcome;
  f_status : rpc_status
}.

(** The process while [server.wait_for_termination()] blocks. *)
Record System : Type := mkSystem {
  srv : Server;
  terminated : bool;
  queue : list rpc_request;
  workers : list Worker;
  finished : list Finished
}.

Definition wait_for_termination (s : Server) : System :=
  {| srv := s; terminated := false; queue := []; workers := [];
     finished := [] |}.

Inductive event : Type :=
| Arrive (c : rpc_request)            (* a call comes in on the listener *)
| Schedule                            (* a free pool thread takes a call *)
| Answer (i : nat) (o : HttpOutcome)  (* the network answers thread i *)
| Complete (i : nat)                  (* thread i ends its call *)
| Terminate.                          (* the process is told to stop *)

(** One step of the process; [None] when the event cannot happen. *)
Definition step (s : System) (ev : event) : option System :=
  if terminated s then None
  else
    match ev with
    | Arrive c =>
        if started (srv s) then
          Some {| srv := srv s; terminated := false;
                  queue := queue s ++ [c]; workers := workers s;
                  finished := finished s |}
        else None
    | Schedule =>
        match queue s with
        | [] => None
        | c :: q =>
            if decide (length (workers s) < futures.max_workers (pool (srv s)))%nat
            then
              match dispatch (handlers (srv s)) c with
              | Some p =>
                  Some {| srv := srv s; terminated := false; queue := q;
                          workers := workers s ++ [mkWorker c [] p];
                          finished := finished s |}
              | None =>
                  Some {| srv := srv s; terminated := false; queue := q;
                          workers := workers s;
                          finished :=
                            finished s ++ [mkFinished c [] UNIMPLEMENTED] |}
              end
            else None
        end
    | Answer i o =>
        match workers s !! i with
        | Some (mkWorker c answers (Call _ k)) =>
            Some {| srv := srv s; terminated := false; queue := queue s;
                    workers :=
                      <[i := mkWorker c (answers ++ [o]) (k o)]> (workers s);
                    finished := finished s |}
        | _ => None
        end
    | Complete i =>
        match workers s !! i with
        | Some (mkWorker c answers (Ret v)) =>
            Some {| srv := srv s; terminated := false; queue := queue s;
                    workers := delete i (workers s);
                    finished := finished s ++ [mkFinished c answers (OK v)] |}
        | Some (mkWorker c answers (Raise e)) =>
            Some {| srv := srv s; terminated := false; queue := queue s;
                    workers := delete i (workers s);
                    finished :=
                      finished s ++ [mkFinished c answers (UNKNOWN e)] |}
        | _ => None
        end
    | Terminate =>
        Some {| srv := srv s; terminated := true; queue := queue s;
                workers := workers s; finished := finished s |}
    end.

Fixpoint exec (s : System) (evs : list event) : option System :=
  match evs with
  | [] => Some s
  | ev :: rest =>
      match step s ev with
      | Some s' => exec s' rest
      | None => None
      end
  end.

End grpc.

(** The generated service stubs: the servicer interfaces and the functions
    that register an implementation with a server. *)
Module pb2_grpc.
Import pb2.

Class GreeterServicer (T : Type) : Type :=
  SayHello : T -> HelloRequest -> Prog HelloReply.

Class IELTSServiceServicer (T : Type) : Type :=
  EvaluateIELTS : T -> EvaluationRequest -> Prog EvaluationResponseFromToDataBase.

Definition Greeter_handler {T : Type} `{GreeterServicer T} (servicer : T)
  : grpc.method_handler :=
  fun c =>
    match c with
    | SayHelloCall r => Some (SayHelloReply <$> SayHello servicer r)
    | _ => None
    end.

Definition IELTSService_handler {T : Type} `{IELTSServiceServicer T}
    (servicer : T) : grpc.method_handler :=
  fun c =>
    match c with
    | EvaluateIELTSCall r =>
        Some (EvaluateIELTSReply <$> EvaluateIELTS servicer r)
    | _ => None
    end.

Definition add_GreeterServicer_to_server {T : Type} `{GreeterServicer T}
    (servicer : T) (server : grpc.Server) : grpc.Server :=
  grpc.add_generic_rpc_handlers (Greeter_handler servicer) server.

Definition add_IELTSServiceServicer_to_server {T : Type}
    `{IELTSServiceServicer T} (servicer : T) (server : grpc.Server)
  : grpc.Server :=
  grpc.add_generic_rpc_handlers (IELTSService_handler servicer) server.

End pb2_grpc.

#[global] Instance ielts_service_servicer
  : pb2_grpc.IELTSServiceServicer ielts_service.IELTSService.t :=
  ielts_service.IELTSService.EvaluateIELTS.

(** ** server/python_server.py *)

Module python_server.
Import pb2.

Module Greeter.

Inductive t : Type := mk.

Definition SayHello (self : t) (request : HelloRequest) : Prog HelloReply :=
  Ret {| message := "Hello, " +:+ name request +:+ "!" |}.

End Greeter.

Module IELTSService.

Inductive t : Type := mk.

Definition EvaluateIELTS (self : t) (request : EvaluationRequest)
  : Prog EvaluationResponseFromToDataBase :=
  Ret {| rs_student_response := rq_student_response request;
         rs_passage := rq_passage request;
         rs_question := rq_question request;
         rs_complex_sentences := rq_complex_sentences request;
         rs_advanced_vocabulary := rq_advanced_vocabulary request;
         rs_cohesive_devices := rq_cohesive_devices request;
         evaluation_from_claude := "Evaluation not implemented yet." |}.

End IELTSService.

#[global] Instance Greeter_servicer : pb2_grpc.GreeterServicer Greeter.t :=
  Greeter.SayHello.
#[global] Instance IELTSService_servicer
  : pb2_grpc.IELTSServiceServicer IELTSService.t :=
  IELTSService.EvaluateIELTS.

(** The server as [serve] has set it up when it calls [server.start()].
    The line that [serve] prints goes to the console and is not part of the
    server. *)
Definition configured : grpc.Server :=
  let server := grpc.server (futures.mkThreadPoolExecutor 10) in
  let server := pb2_grpc.add_GreeterServicer_to_server Greeter.mk server in
  let server :=
    pb2_grpc.add_IELTSServiceServicer_to_server IELTSService.mk server in
  let server := grpc.add_insecure_port server "[::]:50052" in
  server.

Definition serve : grpc.System :=
  let server := configured in
  let server := grpc.start server in
  grpc.wait_for_termination server.

End python_server.

(** * Properties *)

Import pb2.
Import ielts_repository.

(** ** Vocabulary of the statements *)

(** The six fields of a request are the six echoed fields of a response. *)
Definition echoes (request : EvaluationRequest)
    (response : EvaluationResponseFromToDataBase) : Prop :=
  rs_passage response = rq_passage request /\
  rs_question response = rq_question request /\
  rs_student_response response = rq_student_response request /\
  rs_complex_sentences response = rq_complex_sentences request /\
  rs_advanced_vocabulary response = rq_advanced_vocabulary request /\
  rs_cohesive_devices response = rq_cohesive_devices request.

(** The message the delegating handler builds for the client. *)
Definition to_claude (request : EvaluationRequest) : EvaluationRequestToClaude :=
  {| passage := rq_passage request;
     question := rq_question request;
     student_response := rq_student_response request;
     complex_sentences := rq_complex_sentences request;
     advanced_vocabulary := rq_advanced_vocabulary request;
     cohesive_devices := rq_cohesive_devices request |}.

(** The response that echoes [request] and carries [text]. *)
Definition echo_with (request : EvaluationRequest) (text : string)
  : EvaluationResponseFromToDataBase :=
  {| rs_passage := rq_passage request;
     rs_question := rq_question request;
     rs_student_response := rq_student_response request;
     rs_complex_sentences := rq_complex_sentences request;
     rs_advanced_vocabulary := rq_advanced_vocabulary request;
     rs_cohesive_devices := rq_cohesive_devices request;
     evaluation_from_claude := text |}.

Definition occurs_in (part whole : string) : Prop :=
  exists before after : string, whole = before +:+ part +:+ after.

(** The request and the answers of the specification's scenarios. *)
Definition scenario_request : EvaluationRequest :=
  {| rq_passage := "P"; rq_question := "Q"; rq_student_response := "R";
     rq_complex_sentences := "yes"; rq_advanced_vocabulary := "no";
     rq_cohesive_devices := "yes" |}.

Definition good_job : HttpOutcome :=
  Delivered {| status_code := 200; location := None;
               body_json := Some (JObj {[ "content" := JStr "Good job." ]}) |}.

Definition server_error : HttpOutcome :=
  Delivered {| status_code := 500; location := None; body_json := None |}.

Definition empty_object : HttpOutcome :=
  Delivered {| status_code := 200; location := None;
               body_json := Some (JObj ∅) |}.

(** A redirect to another address. *)
Definition moved : HttpOutcome :=
  Delivered {| status_code := 302;
               location := Some "https://example.org/elsewhere";
               body_json := None |}.

Definition result_map {A B : Type} (f : A -> B) (r : result A) : result B :=
  match r with
  | Returned a => Returned (f a)
  | Raised e => Raised e
  end.

Definition result_bind {A B : Type} (f : A -> result B) (r : result A)
  : result B :=
  match r with
  | Returned a => f a
  | Raised e => Raised e
  end.

(** The program that ends at once with the given result. *)
Definition lift {A : Type} (r : result A) : Prog A :=
  match r with
  | Returned a => Ret a
  | Raised e => Raise e
  end.

(** What [evaluate_ielts] makes of the response that [requests.post]
    returns to it. *)
Definition client_result (r : Response)
  : result EvaluationResponseFromClaude :=
  if decide (status_code r = 200) then
    match body_json r with
    | None => Raised JSONDecodeError
    | Some (JObj d) =>
        match d !! "content" with
        | None => Raised (KeyError "content")
        | Some (JStr text) => Returned {| evaluation := text |}
        | Some JNull => Returned {| evaluation := "" |}
        | Some _ => Raised TypeError
        end
    | Some _ => Raised TypeError
    end
  else
    Returned {| evaluation := "Error: Unable to get evaluation from Claude." |}.

(** What following redirects comes to, with the response [resp] in hand,
    [budget] redirects still allowed and [answers] still to come. *)
Fixpoint settle (budget : nat) (resp : Response) (answers : list HttpOutcome)
  : option (result Response) :=
  if follows resp then
    match budget with
    | O => Some (Raised TooManyRedirects)
    | S budget' =>
        match answers with
        | [] => None
        | TransportFailure f :: _ => Some (Raised (requests_exception f))
        | Delivered r :: rest => settle budget' r rest
        end
    end
  else Some (Returned resp).

(** What one call of [requests.post] comes to on the answers of the
    network: the response it returns or the exception it raises; [None]
    while it still waits. *)
Definition post_result (answers : list HttpOutcome) : option (result Response) :=
  match answers with
  | [] => None
  | TransportFailure f :: _ => Some (Raised (requests_exception f))
  | Delivered r :: rest => settle max_redirects r rest
  end.

(** A program that exchanges at most [n] messages, whatever the answers. *)
Fixpoint bounded {A : Type} (n : nat) (p : Prog A) {struct p} : Prop :=
  match p with
  | Ret _ | Raise _ => True
  | Call _ k =>
      match n with
      | O => False
      | S m => forall o, bounded m (k o)
      end
  end.

(** How a call ends for its caller when the servicers [hs] are registered
    and the network gives [answers] to the thread that serves the call;
    [None] while the thread still waits for an answer. *)
Definition rpc_outcome (hs : list grpc.method_handler) (c : rpc_request)
    (answers : list HttpOutcome) : option grpc.rpc_status :=
  match grpc.dispatch hs c with
  | Some p => grpc.status_of_result <$> run p answers
  | None => Some grpc.UNIMPLEMENTED
  end.

(** The handler list of a server on which the delegating evaluation
    servicer [self] is registered. *)
Definition delegating (self : ielts_service.IELTSService.t)
  : list grpc.method_handler :=
  [pb2_grpc.IELTSService_handler self].

Definition error_literal : string :=
  "Error: Unable to get evaluation from Claude.".

(** The server of [serve] with the delegating servicer [self] in the place
    of the stub. *)
Definition delegating_server (self : ielts_service.IELTSService.t)
  : grpc.Server :=
  let server := grpc.server (futures.mkThreadPoolExecutor 10) in
  let server :=
    pb2_grpc.add_GreeterServicer_to_server python_server.Greeter.mk server in
  let server := pb2_grpc.add_IELTSServiceServicer_to_server self server in
  let server := grpc.add_insecure_port server "[::]:50052" in
  grpc.start server.

(** What is left of a program once the network has given it [answers], one
    for each exchange; [None] when the program ends before it has used them
    all. *)
Fixpoint feed {A : Type} (p : Prog A) (answers : list HttpOutcome)
    {struct answers} : option (Prog A) :=
  match answers with
  | [] => Some p
  | o :: rest =>
      match p with
      | Call _ k => feed (k o) rest
      | _ => None
      end
  end.

(** A pool thread is where its own call and its own answers put it. *)
Definition worker_ok (hs : list grpc.method_handler) (w : grpc.Worker) : Prop :=
  exists p0, grpc.dispatch hs (grpc.w_call w) = Some p0
             /\ feed p0 (grpc.w_answers w) = Some (grpc.w_prog w).

(** A finished call ended as its own call and its own answers say. *)
Definition finished_ok (hs : list grpc.method_handler) (f : grpc.Finished)
  : Prop :=
  rpc_outcome hs (grpc.f_call f) (grpc.f_answers f) = Some (grpc.f_status f).

Definition system_ok (s0 : grpc.Server) (s : grpc.System) : Prop :=
  grpc.srv s = s0
  /\ Forall (worker_ok (grpc.handlers s0)) (grpc.workers s)
  /\ Forall (finished_ok (grpc.handlers s0)) (grpc.finished s)
  /\ (length (grpc.workers s) <= futures.max_workers (grpc.pool s0))%nat.

(** Two calls with different inputs that are served at the same time: both
    arrive, both are taken by a pool thread, the network answers the second
    before the first, and they end in that order. *)
Definition other_request : EvaluationRequest :=
  {| rq_passage := "P2"; rq_question := "Q2"; rq_student_response := "R2";
     rq_complex_sentences := "no"; rq_advanced_vocabulary := "yes";
     rq_cohesive_devices := "no" |}.

Definition two_calls : list grpc.event :=
  [grpc.Arrive (EvaluateIELTSCall scenario_request);
   grpc.Arrive (EvaluateIELTSCall other_request);
   grpc.Schedule; grpc.Schedule;
   grpc.Answer 1 good_job; grpc.Answer 0 server_error;
   grpc.Complete 1; grpc.Complete 0].

(** ** Vocabulary of the further properties *)

(** A JSON document that is a dict. *)
Definition is_object (j : json) : Prop :=
  match j with
  | JObj _ => True
  | _ => False
  end.

(** The responses of [requests.post] on which [evaluate_ielts] returns the
    reply [reply]. *)
Definition answered_with (r : Response) (reply : EvaluationResponseFromClaude)
  : Prop :=
  (status_code r <> 200 /\ evaluation reply = error_literal)
  \/ (status_code r = 200
      /\ exists d, body_json r = Some (JObj d)
                   /\ (d !! "content" = Some (JStr (evaluation reply))
                       \/ (d !! "content" = Some JNull
                           /\ evaluation reply = ""))).

(** The text has no line break. *)
Fixpoint one_line (s : string) : bool :=
  match s with
  | EmptyString => true
  | String c rest =>
      if decide (c = "010"%char) then false else one_line rest
  end.

Definition fields_one_line (request : EvaluationRequestToClaude) : Prop :=
  one_line (passage request) = true
  /\ one_line (question request) = true
  /\ one_line (student_response request) = true
  /\ one_line (complex_sentences request) = true
  /\ one_line (advanced_vocabulary request) = true
  /\ one_line (cohesive_devices request) = true.

(** The message of one call of the delegating handler. *)
Definition outgoing (self : ielts_service.IELTSService.t)
    (request : EvaluationRequest) : Message :=
  Sent
  {| method := POST;
     url := ClaudeRepository.api_url
              (ielts_service.IELTSService.claude_repository self);
     headers := ClaudeRepository.build_headers
                  (ielts_service.IELTSService.claude_repository self);
     json_payload :=
       ClaudeRepository.build_data
         (ClaudeRepository.build_prompt (to_claude request)) |}.

(** The reply of the server of [serve] to a call. *)
Definition stub_reply (c : rpc_request) : rpc_reply :=
  match c with
  | SayHelloCall r =>
      SayHelloReply {| message := "Hello, " +:+ name r +:+ "!" |}
  | EvaluateIELTSCall r =>
      EvaluateIELTSReply (echo_with r "Evaluation not implemented yet.")
  end.

(** A pool thread of the server of [serve] that has just taken the call
    [c], and the call once that thread has ended it. *)
Definition ready (c : rpc_request) : grpc.Worker :=
  grpc.mkWorker c [] (Ret (stub_reply c)).

Definition answered (c : rpc_request) : grpc.Finished :=
  grpc.mkFinished c [] (grpc.OK (stub_reply c)).

(** A finished call used up exactly the answers its program asked for. *)
Definition finished_exact (hs : list grpc.method_handler) (f : grpc.Finished)
  : Prop :=
  match grpc.dispatch hs (grpc.f_call f) with
  | Some p0 =>
      match grpc.f_status f with
      | grpc.OK v => feed p0 (grpc.f_answers f) = Some (Ret v)
      | grpc.UNKNOWN e => feed p0 (grpc.f_answers f) = Some (Raise e)
      | grpc.UNIMPLEMENTED => False
      end
  | None => grpc.f_answers f = [] /\ grpc.f_status f = grpc.UNIMPLEMENTED
  end.

(** ** Running programs *)

Lemma run_fmap {A B : Type} (f : A -> B) (p : Prog A)
    (answers : list HttpOutcome) :
  run (f <$> p) answers = result_map f <$> run p answers.
Proof.
  revert answers.
  induction p as [a | e | rq k IH]; intros answers; [done | done |].
  destruct answers as [| o rest]; [done |]. apply IH.
Qed.

Lemma sent_fmap {A B : Type} (f : A -> B) (p : Prog A)
    (answers : list HttpOutcome) :
  sent (f <$> p) answers = sent p answers.
Proof.
  revert answers.
  induction p as [a | e | rq k IH]; intros answers; [done | done |].
  destruct answers as [| o rest]; [done |].
  change (rq :: sent (f <$> k o) rest = rq :: sent (k o) rest).
  by rewrite IH.
Qed.

Lemma run_bind_lift {A B : Type} (p : Prog A) (g : A -> Prog B)
    (f : A -> result B) (answers : list HttpOutcome) :
  (forall a, g a = lift (f a)) ->
  run (bind p g) answers = result_bind f <$> run p answers.
Proof.
  intros Hg. revert answers.
  induction p as [a | e | rq k IH]; intros answers.
  - simpl. rewrite Hg. by destruct (f a).
  - done.
  - destruct answers as [| o rest]; [done |]. apply IH.
Qed.

Lemma sent_bind_lift {A B : Type} (p : Prog A) (g : A -> Prog B)
    (f : A -> result B) (answers : list HttpOutcome) :
  (forall a, g a = lift (f a)) ->
  sent (bind p g) answers = sent p answers.
Proof.
  intros Hg. revert answers.
  induction p as [a | e | rq k IH]; intros answers.
  - simpl. rewrite Hg. by destruct (f a).
  - done.
  - destruct answers as [| o rest]; [done |].
    change (rq :: sent (bind (k o) g) rest = rq :: sent (k o) rest).
    by rewrite IH.
Qed.

(** ** One call of [requests.post] *)

Lemma run_resolve_redirects (budget : nat) (req : Message) (resp : Response)
    (answers : list HttpOutcome) :
  run (resolve_redirects budget req resp) answers = settle budget resp answers.
Proof.
  revert req resp answers.
  induction budget as [| budget IH]; intros req resp answers; simpl;
    destruct (follows resp); try done.
  destruct answers as [| [f | r] rest]; [done | done |]. apply IH.
Qed.

Lemma run_requests_post (u : string) (data : json) (hdrs : gmap string string)
    (answers : list HttpOutcome) :
  run (requests_post u data hdrs) answers = post_result answers.
Proof.
  destruct answers as [| [f | r] rest]; [done | done |].
  apply run_resolve_redirects.
Qed.

Lemma follows_redirect_status (r : Response) :
  follows r = true -> status_code r ∈ REDIRECT_STATI.
Proof.
  unfold follows, get_redirect_target.
  destruct (location r); [| done]. case_bool_decide; done.
Qed.

Lemma follows_200 (r : Response) : status_code r = 200 -> follows r = false.
Proof.
  intros H. destruct (follows r) eqn:E; [| done].
  apply follows_redirect_status in E. rewrite H in E.
  unfold REDIRECT_STATI in E.
  rewrite !elem_of_cons, elem_of_nil in E. lia.
Qed.

Lemma settle_direct (budget : nat) (r : Response) (rest : list HttpOutcome) :
  follows r = false -> settle budget r rest = Some (Returned r).
Proof. intros H. destruct budget; simpl; by rewrite H. Qed.

Lemma post_result_direct (r : Response) (rest : list HttpOutcome) :
  follows r = false -> post_result (Delivered r :: rest) = Some (Returned r).
Proof. apply settle_direct. Qed.

Lemma settle_returned (budget : nat) (resp r : Response)
    (answers : list HttpOutcome) :
  settle budget resp answers = Some (Returned r) -> follows r = false.
Proof.
  revert resp answers. induction budget as [| budget IH]; intros resp answers;
    simpl; destruct (follows resp) eqn:E; try done.
  - intros H. by simplify_eq.
  - destruct answers as [| [f | r'] rest]; [done | done |]. apply IH.
  - intros H. by simplify_eq.
Qed.

Lemma settle_direct_prog (budget : nat) (req : Message) (r : Response) :
  follows r = false -> resolve_redirects budget req r = Ret r.
Proof. intros H. destruct budget; simpl; by rewrite H. Qed.

(** ** The client, response by response *)

Lemma run_evaluate_ielts (self : ClaudeRepository.t)
    (request : EvaluationRequestToClaude) (answers : list HttpOutcome) :
  run (ClaudeRepository.evaluate_ielts self request) answers
  = result_bind client_result <$> post_result answers.
Proof.
  rewrite <- (run_requests_post (ClaudeRepository.api_url self)
                (ClaudeRepository.build_data
                   (ClaudeRepository.build_prompt request))
                (ClaudeRepository.build_headers self)).
  apply run_bind_lift. intros [status loc body]. unfold client_result. cbn.
  destruct (decide (status = 200)); [| done].
  destruct body as [[| | | | | | d] |]; try done.
  cbn. destruct (d !! "content") as [[| | | | | |] |]; done.
Qed.

Lemma run_evaluate_ielts_direct (self : ClaudeRepository.t)
    (request : EvaluationRequestToClaude) (r : Response)
    (rest : list HttpOutcome) :
  follows r = false ->
  run (ClaudeRepository.evaluate_ielts self request) (Delivered r :: rest)
  = Some (client_result r).
Proof.
  intros H. by rewrite run_evaluate_ielts, post_result_direct.
Qed.


Lemma run_EvaluateIELTS (self : ielts_service.IELTSService.t)
    (request : EvaluationRequest) (answers : list HttpOutcome) :
  run (ielts_service.IELTSService.EvaluateIELTS self request) answers
  = result_map (fun r => echo_with request (evaluation r)) <$>
      run (ClaudeRepository.evaluate_ielts
             (ielts_service.IELTSService.claude_repository self)
             (to_claude request)) answers.
Proof.
  rewrite <- run_fmap. reflexivity.
Qed.

Lemma rpc_outcome_delegating (self : ielts_service.IELTSService.t)
    (request : EvaluationRequest) (answers : list HttpOutcome) :
  rpc_outcome (delegating self) (EvaluateIELTSCall request) answers
  = (fun res =>
       grpc.status_of_result
         (result_map
            (fun r => EvaluateIELTSReply (echo_with request (evaluation r)))
            (result_bind client_result res))) <$> post_result answers.
Proof.
  unfold rpc_outcome, delegating. cbn [grpc.dispatch pb2_grpc.IELTSService_handler].
  rewrite run_fmap.
  change (pb2_grpc.EvaluateIELTS self request)
    with (ielts_service.IELTSService.EvaluateIELTS self request).
  rewrite run_EvaluateIELTS, run_evaluate_ielts.
  destruct (post_result answers) as [[r | e] |]; [| done | done].
  cbn. by destruct (client_result r).
Qed.

(** ** The echoed fields *)

(** C1.  Whatever the external API does, a response that [EvaluateIELTS]
    returns carries the six fields of its request unchanged.  The stub
    handler of [python_server.py] always returns, and echoes; the delegating
    handler of [ielts_service.py] returns exactly when its client does, and
    then echoes. *)
Theorem EvaluateIELTS_echoes_request :
  (forall (self : python_server.IELTSService.t) (request : EvaluationRequest),
      exists response,
        python_server.IELTSService.EvaluateIELTS self request = Ret response
        /\ echoes request response) /\
  (forall (self : ielts_service.IELTSService.t) (request : EvaluationRequest)
          (answers : list HttpOutcome) (response : EvaluationResponseFromToDataBase),
      run (ielts_service.IELTSService.EvaluateIELTS self request) answers
        = Some (Returned response) ->
      echoes request response) /\
  (forall (self : ielts_service.IELTSService.t) (request : EvaluationRequest)
          (answers : list HttpOutcome) (reply : EvaluationResponseFromClaude),
      run (ClaudeRepository.evaluate_ielts
             (ielts_service.IELTSService.claude_repository self)
             (to_claude request)) answers = Some (Returned reply) ->
      exists response,
        run (ielts_service.IELTSService.EvaluateIELTS self request) answers
          = Some (Returned response)
        /\ echoes request response).
Proof.
  split; [| split].
  - intros self request. eexists. split; [reflexivity |].
    repeat split.
  - intros self request answers response H.
    rewrite run_EvaluateIELTS in H.
    destruct (run _ answers) as [[reply | e] |]; simplify_eq /=.
    repeat split.
  - intros self request answers reply H.
    rewrite run_EvaluateIELTS, H. eexists. split; [reflexivity |].
    repeat split.
Qed.

Lemma EvaluateIELTS_echoes_request_witness :
  echoes scenario_request (echo_with scenario_request "Good job.").
Proof.
  apply (proj1 (proj2 EvaluateIELTS_echoes_request)
           ielts_service.IELTSService.__init__ scenario_request [good_job]).
  reflexivity.
Defined.

(** ** HTTP 200 *)

(** C2.  When the external API answers with status 200 and a JSON object
    whose field "content" is the text [X], [evaluate_ielts] returns [X]
    itself as the evaluation text, and the handler puts that same text in
    its response. *)
Theorem evaluate_ielts_returns_content
    (self : ClaudeRepository.t) (request : EvaluationRequestToClaude)
    (X : string) (d : gmap string json) (loc : option string)
    (rest : list HttpOutcome) :
  d !! "content" = Some (JStr X) ->
  run (ClaudeRepository.evaluate_ielts self request)
      (Delivered {| status_code := 200; location := loc;
                    body_json := Some (JObj d) |} :: rest)
  = Some (Returned {| evaluation := X |})
  /\ forall (service : ielts_service.IELTSService.t) (call : EvaluationRequest),
      run (ielts_service.IELTSService.EvaluateIELTS service call)
          (Delivered {| status_code := 200; location := loc;
                        body_json := Some (JObj d) |} :: rest)
      = Some (Returned (echo_with call X)).
Proof.
  intros Hd.
  assert (Hc : client_result {| status_code := 200; location := loc;
                                body_json := Some (JObj d) |}
               = Returned {| evaluation := X |}).
  { unfold client_result. cbn. by rewrite Hd. }
  split.
  - rewrite run_evaluate_ielts_direct; [by rewrite Hc | by apply follows_200].
  - intros service call.
    rewrite run_EvaluateIELTS, run_evaluate_ielts_direct;
      [by rewrite Hc | by apply follows_200].
Qed.

Lemma evaluate_ielts_returns_content_witness :
  run (ClaudeRepository.evaluate_ielts ClaudeRepository.__init__
         (to_claude scenario_request)) [good_job]
  = Some (Returned {| evaluation := "Good job." |})
  /\ forall (service : ielts_service.IELTSService.t) (call : EvaluationRequest),
      run (ielts_service.IELTSService.EvaluateIELTS service call) [good_job]
      = Some (Returned (echo_with call "Good job.")).
Proof.
  apply (evaluate_ielts_returns_content ClaudeRepository.__init__
           (to_claude scenario_request) "Good job."
           {[ "content" := JStr "Good job." ]} None []).
  reflexivity.
Defined.

(** ** Any other status *)

(** A status other than 200 that does not give the fixed error text: the
    external API answers with status 302 and a Location, [requests.post]
    follows the redirect, the answer found there has status 200, and
    [evaluate_ielts] returns the text of that answer. *)
Lemma evaluate_ielts_follows_redirect :
  302 <> 200
  /\ run (ClaudeRepository.evaluate_ielts ClaudeRepository.__init__
            (to_claude scenario_request))
         [Delivered {| status_code := 302;
                       location := Some "https://example.org/elsewhere";
                       body_json := None |};
          Delivered {| status_code := 200; location := None;
                       body_json :=
                         Some (JObj {[ "content" := JStr "Redirected." ]}) |}]
     = Some (Returned {| evaluation := "Redirected." |})
  /\ run (ClaudeRepository.evaluate_ielts ClaudeRepository.__init__
            (to_claude scenario_request))
         [Delivered {| status_code := 302;
                       location := Some "https://example.org/elsewhere";
                       body_json := None |};
          Delivered {| status_code := 200; location := None;
                       body_json :=
                         Some (JObj {[ "content" := JStr "Redirected." ]}) |}]
     <> Some (Returned
                {| evaluation :=
                     "Error: Unable to get evaluation from Claude." |}).
Proof.
  split; [lia |]. split; [reflexivity |].
  intros H. vm_compute in H. discriminate H.
Qed.

(** C3, amended.  When the response that [requests.post] returns, which is
    the last response once redirects are followed, has a status other than
    200, whatever its body, [evaluate_ielts] returns the fixed text
    "Error: Unable to get evaluation from Claude."; the handler returns a
    response that echoes the request and carries that text, and the call
    ends with status OK.  A first answer with a status other than 200 that
    is not a redirect to follow is such a response. *)
Theorem evaluate_ielts_error_literal
    (self : ClaudeRepository.t) (request : EvaluationRequestToClaude)
    (answers : list HttpOutcome) (r : Response) :
  run (requests_post (ClaudeRepository.api_url self)
         (ClaudeRepository.build_data (ClaudeRepository.build_prompt request))
         (ClaudeRepository.build_headers self)) answers
    = Some (Returned r) ->
  status_code r <> 200 ->
  run (ClaudeRepository.evaluate_ielts self request) answers
  = Some (Returned
            {| evaluation := "Error: Unable to get evaluation from Claude." |})
  /\ (forall (service : ielts_service.IELTSService.t) (call : EvaluationRequest),
        run (ielts_service.IELTSService.EvaluateIELTS service call) answers
        = Some (Returned
                  (echo_with call "Error: Unable to get evaluation from Claude."))
        /\ rpc_outcome (delegating service) (EvaluateIELTSCall call) answers
           = Some (grpc.OK (EvaluateIELTSReply
                     (echo_with call
                        "Error: Unable to get evaluation from Claude."))))
  /\ (forall (status : Z) (loc : option string) (body : option json)
             (rest : list HttpOutcome),
        status <> 200 ->
        follows {| status_code := status; location := loc; body_json := body |}
          = false ->
        run (ClaudeRepository.evaluate_ielts self request)
            (Delivered {| status_code := status; location := loc;
                          body_json := body |} :: rest)
        = Some (Returned
                  {| evaluation :=
                       "Error: Unable to get evaluation from Claude." |})).
Proof.
  intros Hpost Hstatus. rewrite run_requests_post in Hpost.
  assert (Hc : forall r', status_code r' <> 200 ->
                 client_result r' = Returned {| evaluation := error_literal |}).
  { intros r' H. unfold client_result. by destruct (decide _). }
  split; [| split].
  - rewrite run_evaluate_ielts, Hpost. cbn. by rewrite Hc.
  - intros service call. split.
    + rewrite run_EvaluateIELTS, run_evaluate_ielts, Hpost. cbn.
      by rewrite Hc.
    + rewrite rpc_outcome_delegating, Hpost. cbn. by rewrite Hc.
  - intros status loc body rest Hs Hf.
    rewrite run_evaluate_ielts_direct by done. by rewrite Hc.
Qed.

Lemma evaluate_ielts_error_literal_witness :
  run (ClaudeRepository.evaluate_ielts ClaudeRepository.__init__
         (to_claude scenario_request)) [server_error]
  = Some (Returned
            {| evaluation := "Error: Unable to get evaluation from Claude." |}).
Proof.
  refine (proj1 (evaluate_ielts_error_literal ClaudeRepository.__init__
                   (to_claude scenario_request) [server_error]
                   {| status_code := 500; location := None; body_json := None |}
                   _ _)).
  - reflexivity.
  - simpl. lia.
Defined.

(** ** Failures that are not caught *)



(** C6.  When the external API answers with status 200 and a JSON object
    that has no field "content", [evaluate_ielts] returns nothing: the
    [KeyError] of the lookup leaves it, then the handler, and the call ends
    with status UNKNOWN. *)
Theorem missing_content_is_a_fault
    (self : ClaudeRepository.t) (request : EvaluationRequestToClaude)
    (d : gmap string json) (loc : option string) (rest : list HttpOutcome) :
  d !! "content" = None ->
  run (ClaudeRepository.evaluate_ielts self request)
      (Delivered {| status_code := 200; location := loc;
                    body_json := Some (JObj d) |} :: rest)
  = Some (Raised (KeyError "content"))
  /\ forall (service : ielts_service.IELTSService.t) (call : EvaluationRequest),
      run (ielts_service.IELTSService.EvaluateIELTS service call)
          (Delivered {| status_code := 200; location := loc;
                        body_json := Some (JObj d) |} :: rest)
      = Some (Raised (KeyError "content"))
      /\ rpc_outcome (delegating service) (EvaluateIELTSCall call)
           (Delivered {| status_code := 200; location := loc;
                         body_json := Some (JObj d) |} :: rest)
         = Some (grpc.UNKNOWN (KeyError "content")).
Proof.
  intros Hd.
  set (r := {| status_code := 200; location := loc;
               body_json := Some (JObj d) |}).
  assert (Hc : client_result r = Raised (KeyError "content")).
  { unfold client_result. cbn. by rewrite Hd. }
  assert (Hp : post_result (Delivered r :: rest) = Some (Returned r)).
  { by apply post_result_direct, follows_200. }
  split; [| intros service call; split].
  - rewrite run_evaluate_ielts, Hp. cbn. by rewrite Hc.
  - rewrite run_EvaluateIELTS, run_evaluate_ielts, Hp. cbn. by rewrite Hc.
  - rewrite rpc_outcome_delegating, Hp. cbn. by rewrite Hc.
Qed.

Lemma missing_content_is_a_fault_witness :
  run (ClaudeRepository.evaluate_ielts ClaudeRepository.__init__
         (to_claude scenario_request)) [empty_object]
  = Some (Raised (KeyError "content"))
  /\ forall (service : ielts_service.IELTSService.t) (call : EvaluationRequest),
      run (ielts_service.IELTSService.EvaluateIELTS service call) [empty_object]
      = Some (Raised (KeyError "content"))
      /\ rpc_outcome (delegating service) (EvaluateIELTSCall call) [empty_object]
         = Some (grpc.UNKNOWN (KeyError "content")).
Proof.
  apply (missing_content_is_a_fault ClaudeRepository.__init__
           (to_claude scenario_request) ∅ None []).
  reflexivity.
Defined.

(** ** The outbound request *)

Lemma append_assoc (a b c : string) : (a +:+ b) +:+ c = a +:+ (b +:+ c).
Proof.
  induction a as [| ch a IH]; [done |].
  change (String ch ((a +:+ b) +:+ c) = String ch (a +:+ (b +:+ c))).
  by f_equal.
Qed.

Lemma occurs_in_here (part after whole : string) :
  whole = part +:+ after -> occurs_in part whole.
Proof. intros ->. by exists "", after. Qed.

Lemma occurs_in_skip (part skipped whole : string) :
  occurs_in part whole -> occurs_in part (skipped +:+ whole).
Proof.
  intros (before & after & ->).
  exists (skipped +:+ before), after. by rewrite append_assoc.
Qed.

Ltac find_occurrence :=
  first [ solve [ eapply occurs_in_here; rewrite ?append_assoc; reflexivity ]
        | apply occurs_in_skip; find_occurrence ].

Lemma build_prompt_embeds (request : EvaluationRequestToClaude) :
  let prompt := ClaudeRepository.build_prompt request in
  occurs_in ("Passage: " +:+ passage request +:+ LF) prompt /\
  occurs_in ("Question: " +:+ question request +:+ LF) prompt /\
  occurs_in ("Student Response: " +:+ student_response request +:+ LF) prompt /\
  occurs_in ("Complex Sentences: " +:+ complex_sentences request +:+ LF) prompt /\
  occurs_in ("Advanced Vocabulary: " +:+ advanced_vocabulary request +:+ LF) prompt /\
  occurs_in ("Cohesive Devices: " +:+ cohesive_devices request +:+ LF) prompt.
Proof.
  cbv zeta. unfold ClaudeRepository.build_prompt.
  repeat split.
  - change "        Passage: " with ("        " +:+ "Passage: ").
    rewrite !append_assoc. find_occurrence.
  - change "        Question: " with ("        " +:+ "Question: ").
    rewrite !append_assoc. find_occurrence.
  - change "        Student Response: " with ("        " +:+ "Student Response: ").
    rewrite !append_assoc. find_occurrence.
  - change "        1. Complex Sentences: "
      with ("        1. " +:+ "Complex Sentences: ").
    rewrite !append_assoc. find_occurrence.
  - change "        2. Advanced Vocabulary: "
      with ("        2. " +:+ "Advanced Vocabulary: ").
    rewrite !append_assoc. find_occurrence.
  - change "        3. Cohesive Devices: "
      with ("        3. " +:+ "Cohesive Devices: ").
    rewrite !append_assoc. find_occurrence.
Qed.

(** The prompt of the specification's scenario, character by character. *)
Example build_prompt_scenario :
  ClaudeRepository.build_prompt (to_claude scenario_request) =
"
        Evaluate the following IELTS reading response:

        Passage: P
        Question: Q
        Student Response: R

        Please consider the following aspects in your evaluation:
        1. Complex Sentences: yes
        2. Advanced Vocabulary: no
        3. Cohesive Devices: yes

        Provide a detailed evaluation of the student's response, including strengths and areas for improvement.
        ".
Proof. reflexivity. Qed.

(** C7.  The message [evaluate_ielts] builds and sends first is a POST to
    the endpoint of the repository object, with the two headers
    Content-Type: application/json and X-API-Key: the key of the repository
    object, and a JSON object of exactly the three fields model
    ("claude-3-sonnet-20240229"), messages (a list of one message, of role
    "user", whose content is the prompt) and max_tokens (1000).  The prompt
    is the fixed text below with the six request fields in their places.
    The client builds no other message: after a failure below HTTP or a
    response that is no redirect to follow nothing more is sent.  The
    object that [ClaudeRepository()] builds holds the fixed endpoint and
    the fixed key. *)
Theorem evaluate_ielts_posts
    (self : ClaudeRepository.t) (request : EvaluationRequestToClaude) :
  exists k : HttpOutcome -> Prog EvaluationResponseFromClaude,
    ClaudeRepository.evaluate_ielts self request =
      Call (Sent
        {| method := POST;
           url := ClaudeRepository.api_url self;
           headers := {[ "Content-Type" := "application/json";
                         "X-API-Key" := ClaudeRepository.api_key self ]};
           json_payload :=
             JObj {[ "model" := JStr "claude-3-sonnet-20240229";
                     "messages" :=
                       JArr [JObj {[ "role" := JStr "user";
                                     "content" := JStr (
"
        Evaluate the following IELTS reading response:

        Passage: " +:+ passage request +:+ "
        Question: " +:+ question request +:+ "
        Student Response: " +:+ student_response request +:+ "

        Please consider the following aspects in your evaluation:
        1. Complex Sentences: " +:+ complex_sentences request +:+ "
        2. Advanced Vocabulary: " +:+ advanced_vocabulary request +:+ "
        3. Cohesive Devices: " +:+ cohesive_devices request +:+ "

        Provide a detailed evaluation of the student's response, including strengths and areas for improvement.
        ") ]}];
                     "max_tokens" := JInt 1000 ]} |}) k
    /\ (forall f, exists e, k (TransportFailure f) = Raise e)
    /\ (forall r, follows r = false ->
          match k (Delivered r) with Call _ _ => False | _ => True end)
    /\ ClaudeRepository.api_url ClaudeRepository.__init__
       = "https://api.anthropic.com/v1/messages"
    /\ ClaudeRepository.api_key ClaudeRepository.__init__
       = "sk-ant-REDACTED//".
Proof.
  eexists. split; [| split; [| split; [| split]]].
  - unfold ClaudeRepository.evaluate_ielts, requests_post.
    cbn [mbind Prog_bind bind]. f_equal.
  - intros f. by eexists.
  - intros [status loc body] Hf. cbv beta iota.
    rewrite (settle_direct_prog max_redirects _ _ Hf). cbn.
    destruct (decide (status = 200)); [| done].
    destruct body as [[| | | | | | d] |]; cbn; try done.
    destruct (d !! "content") as [[| | | | | |] |]; done.
  - reflexivity.
  - reflexivity.
Qed.

Lemma evaluate_ielts_posts_witness :
  exists (m : Message) (k : HttpOutcome -> Prog EvaluationResponseFromClaude),
    ClaudeRepository.evaluate_ielts ClaudeRepository.__init__
      (to_claude scenario_request) = Call m k
    /\ match k server_error with Call _ _ => False | _ => True end.
Proof.
  destruct (evaluate_ielts_posts ClaudeRepository.__init__
              (to_claude scenario_request)) as (k & Hk & _ & H & _).
  eexists _, k. split; [exact Hk |].
  apply (H {| status_code := 500; location := None; body_json := None |}).
  reflexivity.
Defined.

(** ** The serving process *)

Lemma feed_snoc {A : Type} (p : Prog A) (answers : list HttpOutcome)
    (o : HttpOutcome) (rq : Message) (k : HttpOutcome -> Prog A) :
  feed p answers = Some (Call rq k) ->
  feed p (answers ++ [o]) = Some (k o).
Proof.
  revert p. induction answers as [| o' rest IH]; intros p H.
  - by simplify_eq /=.
  - destruct p as [a | e | rq' k']; simplify_eq /=. by apply IH.
Qed.

Lemma feed_run {A : Type} (p q : Prog A) (answers : list HttpOutcome) :
  feed p answers = Some q ->
  match q with
  | Ret a => run p answers = Some (Returned a)
  | Raise e => run p answers = Some (Raised e)
  | Call _ _ => run p answers = None
  end.
Proof.
  revert p. induction answers as [| o rest IH]; intros p H.
  - simplify_eq /=. by destruct q.
  - destruct p as [a | e | rq' k']; simplify_eq /=. by apply IH.
Qed.

Lemma worker_ok_lookup (hs : list grpc.method_handler)
    (ws : list grpc.Worker) (i : nat) (c : rpc_request)
    (answers : list HttpOutcome) (p : Prog rpc_reply) :
  Forall (worker_ok hs) ws ->
  ws !! i = Some (grpc.mkWorker c answers p) ->
  exists p0, grpc.dispatch hs c = Some p0 /\ feed p0 answers = Some p.
Proof.
  intros Hw Hi. exact (proj1 (Forall_lookup _ _) Hw i _ Hi).
Qed.

Lemma finished_ok_of_worker (hs : list grpc.method_handler) (c : rpc_request)
    (answers : list HttpOutcome) (p0 : Prog rpc_reply) (r : result rpc_reply) :
  grpc.dispatch hs c = Some p0 ->
  run p0 answers = Some r ->
  finished_ok hs (grpc.mkFinished c answers (grpc.status_of_result r)).
Proof.
  intros Hd Hrun. unfold finished_ok, rpc_outcome. simpl.
  by rewrite Hd, Hrun.
Qed.

Lemma step_preserves (s0 : grpc.Server) (s s' : grpc.System) (ev : grpc.event) :
  system_ok s0 s -> grpc.step s ev = Some s' -> system_ok s0 s'.
Proof.
  intros (Hsrv & Hw & Hf & Hn) Hstep. unfold grpc.step in Hstep.
  destruct (grpc.terminated s); [done |].
  destruct ev as [c | | i o | i |].
  - destruct (grpc.started (grpc.srv s)); by simplify_eq /=.
  - destruct (grpc.queue s) as [| c q]; [done |].
    case_decide as Hfree; [| done].
    destruct (grpc.dispatch (grpc.handlers (grpc.srv s)) c) as [p |] eqn:Hd;
      simplify_eq /=.
    + split; [done |]. split; [| split; [done |]]; simpl.
      * apply Forall_app. split; [done |].
        apply Forall_singleton. by exists p.
      * rewrite length_app. simpl. lia.
    + split; [done |]. split; [done |]. split; [| done]; simpl.
      apply Forall_app. split; [done |].
      apply Forall_singleton. unfold finished_ok, rpc_outcome. simpl.
      by rewrite Hd.
  - destruct (grpc.workers s !! i) as [[c answers [a | e | rq k]] |] eqn:Hi;
      simplify_eq /=.
    destruct (worker_ok_lookup _ _ _ _ _ _ Hw Hi) as (p0 & Hp0 & Hfeed).
    split; [done |]. split; [| split; [done |]]; simpl.
    + apply Forall_insert; [done |].
      exists p0. split; [done |]. simpl. by eapply feed_snoc.
    + by rewrite length_insert.
  - destruct (grpc.workers s !! i) as [[c answers [a | e | rq k]] |] eqn:Hi;
      simplify_eq /=;
      destruct (worker_ok_lookup _ _ _ _ _ _ Hw Hi) as (p0 & Hp0 & Hfeed);
      pose proof (feed_run _ _ _ Hfeed) as Hrun; simpl in Hrun;
      pose proof (length_delete _ _ (mk_is_Some _ _ Hi)) as Hlen;
      (split; [done |]); (split; [by apply Forall_delete |]);
      (split; [| simpl; lia]); simpl;
      apply Forall_app; (split; [done |]); apply Forall_singleton.
    + exact (finished_ok_of_worker _ _ _ _ (Returned a) Hp0 Hrun).
    + exact (finished_ok_of_worker _ _ _ _ (Raised e) Hp0 Hrun).
  - by simplify_eq /=.
Qed.

Lemma exec_preserves (s0 : grpc.Server) (evs : list grpc.event)
    (s s' : grpc.System) :
  system_ok s0 s -> grpc.exec s evs = Some s' -> system_ok s0 s'.
Proof.
  revert s. induction evs as [| ev rest IH]; intros s Hok Hexec.
  - by simplify_eq /=.
  - simpl in Hexec. destruct (grpc.step s ev) as [s1 |] eqn:Hstep; [| done].
    eapply IH; [| done]. by eapply step_preserves.
Qed.

Lemma wait_for_termination_ok (s0 : grpc.Server) :
  system_ok s0 (grpc.wait_for_termination s0).
Proof. repeat split; simpl; try apply Forall_nil; try done; lia. Qed.

Lemma exec_ok (s0 : grpc.Server) (evs : list grpc.event) (s : grpc.System) :
  grpc.exec (grpc.wait_for_termination s0) evs = Some s -> system_ok s0 s.
Proof. apply exec_preserves, wait_for_termination_ok. Qed.

Lemma step_terminated (s s' : grpc.System) (ev : grpc.event) :
  grpc.step s ev = Some s' ->
  grpc.terminated s = false
  /\ (grpc.terminated s' = true <-> ev = grpc.Terminate).
Proof.
  unfold grpc.step. destruct (grpc.terminated s); [done |]. intros Hstep.
  split; [done |].
  destruct ev as [c | | i o | i |].
  - destruct (grpc.started (grpc.srv s)); by simplify_eq /=.
  - destruct (grpc.queue s) as [| c q]; [done |].
    case_decide; [| done].
    destruct (grpc.dispatch _ c); by simplify_eq /=.
  - destruct (grpc.workers s !! i) as [[c answers [a | e | rq k]] |];
      by simplify_eq /=.
  - destruct (grpc.workers s !! i) as [[c answers [a | e | rq k]] |];
      by simplify_eq /=.
  - by simplify_eq /=.
Qed.

Lemma step_after_termination (s : grpc.System) (ev : grpc.event) :
  grpc.terminated s = true -> grpc.step s ev = None.
Proof. intros H. unfold grpc.step. by rewrite H. Qed.

Lemma exec_terminated (evs : list grpc.event) (s s' : grpc.System) :
  grpc.terminated s = false ->
  grpc.exec s evs = Some s' ->
  (grpc.terminated s' = true <-> last evs = Some grpc.Terminate).
Proof.
  revert s. induction evs as [| ev rest IH]; intros s Hs Hexec.
  - simplify_eq /=. by rewrite Hs.
  - simpl in Hexec. destruct (grpc.step s ev) as [s1 |] eqn:Hstep; [| done].
    destruct (step_terminated _ _ _ Hstep) as [_ Hev].
    destruct rest as [| ev' rest'].
    + simplify_eq /=. rewrite Hev. split; congruence.
    + destruct (grpc.terminated s1) eqn:Hs1.
      * simpl in Hexec. by rewrite (step_after_termination _ _ Hs1) in Hexec.
      * change (last (ev :: ev' :: rest')) with (last (ev' :: rest')).
        by eapply IH.
Qed.

Lemma step_Arrive (s : grpc.System) (c : rpc_request) :
  grpc.terminated s = false -> grpc.started (grpc.srv s) = true ->
  is_Some (grpc.step s (grpc.Arrive c)).
Proof. intros Ht Hs. unfold grpc.step. by rewrite Ht, Hs. Qed.

Lemma feed_Ret {A : Type} (v : A) (answers : list HttpOutcome) (q : Prog A) :
  feed (Ret v) answers = Some q -> answers = [] /\ q = Ret v.
Proof. destruct answers; intros H; by simplify_eq /=. Qed.

Lemma feed_Raise {A : Type} (e : exn) (answers : list HttpOutcome) (q : Prog A) :
  feed (Raise e) answers = Some q -> answers = [] /\ q = Raise e.
Proof. destruct answers; intros H; by simplify_eq /=. Qed.

Lemma step_finished_exact (s0 : grpc.Server) (s s' : grpc.System)
    (ev : grpc.event) :
  system_ok s0 s ->
  Forall (finished_exact (grpc.handlers s0)) (grpc.finished s) ->
  grpc.step s ev = Some s' ->
  Forall (finished_exact (grpc.handlers s0)) (grpc.finished s').
Proof.
  intros (Hsrv & Hw & _ & _) Hf Hstep. unfold grpc.step in Hstep.
  destruct (grpc.terminated s); [done |].
  destruct ev as [c | | i o | i |].
  - destruct (grpc.started (grpc.srv s)); by simplify_eq /=.
  - destruct (grpc.queue s) as [| c q]; [done |].
    case_decide as Hfree; [| done].
    destruct (grpc.dispatch (grpc.handlers (grpc.srv s)) c) as [p |] eqn:Hd;
      simplify_eq /=; [done |].
    apply Forall_app. split; [done |]. apply Forall_singleton.
    unfold finished_exact. simpl. by rewrite Hd.
  - destruct (grpc.workers s !! i) as [[c answers [a | e | rq k]] |] eqn:Hi;
      by simplify_eq /=.
  - destruct (grpc.workers s !! i) as [[c answers [a | e | rq k]] |] eqn:Hi;
      simplify_eq /=;
      destruct (worker_ok_lookup _ _ _ _ _ _ Hw Hi) as (p0 & Hp0 & Hfeed);
      apply Forall_app; (split; [done |]); apply Forall_singleton;
      unfold finished_exact; simpl; by rewrite Hp0.
  - by simplify_eq /=.
Qed.

Lemma exec_finished_exact_from (s0 : grpc.Server) (evs : list grpc.event)
    (s s' : grpc.System) :
  system_ok s0 s ->
  Forall (finished_exact (grpc.handlers s0)) (grpc.finished s) ->
  grpc.exec s evs = Some s' ->
  Forall (finished_exact (grpc.handlers s0)) (grpc.finished s').
Proof.
  revert s. induction evs as [| ev rest IH]; intros s Hok Hf Hexec.
  - by simplify_eq /=.
  - simpl in Hexec. destruct (grpc.step s ev) as [s1 |] eqn:Hstep; [| done].
    apply (IH s1); [by eapply step_preserves | by eapply step_finished_exact
                   | done].
Qed.

Lemma exec_finished_exact (s0 : grpc.Server) (evs : list grpc.event)
    (s : grpc.System) (f : grpc.Finished) :
  grpc.exec (grpc.wait_for_termination s0) evs = Some s ->
  f ∈ grpc.finished s ->
  finished_exact (grpc.handlers s0) f.
Proof.
  intros Hexec Hin.
  assert (H : Forall (finished_exact (grpc.handlers s0)) (grpc.finished s)).
  { eapply exec_finished_exact_from; [apply wait_for_termination_ok | | done].
    simpl. constructor. }
  exact (proj1 (Forall_forall _ _) H f Hin).
Qed.

Lemma serve_dispatch (c : rpc_request) :
  grpc.dispatch (grpc.handlers (grpc.srv python_server.serve)) c
  = Some (Ret (stub_reply c)).
Proof. by destruct c. Qed.

Lemma serve_worker_ready (s : grpc.System) (i : nat) (w : grpc.Worker) :
  system_ok (grpc.srv python_server.serve) s ->
  grpc.workers s !! i = Some w ->
  grpc.w_prog w = Ret (stub_reply (grpc.w_call w)) /\ grpc.w_answers w = [].
Proof.
  intros (_ & Hw & _ & _) Hi. destruct w as [c answers p].
  destruct (worker_ok_lookup _ _ _ _ _ _ Hw Hi) as (p0 & Hp0 & Hfeed).
  rewrite serve_dispatch in Hp0. injection Hp0 as <-.
  apply feed_Ret in Hfeed as [-> ->]. done.
Qed.

Lemma serve_no_Answer (evs : list grpc.event) (s s' : grpc.System) :
  system_ok (grpc.srv python_server.serve) s ->
  grpc.exec s evs = Some s' ->
  forall i o, grpc.Answer i o ∉ evs.
Proof.
  revert s. induction evs as [| ev rest IH]; intros s Hok Hexec i o.
  - apply not_elem_of_nil.
  - simpl in Hexec. destruct (grpc.step s ev) as [s1 |] eqn:Hstep; [| done].
    apply not_elem_of_cons. split.
    + intros <-. unfold grpc.step in Hstep.
      destruct (grpc.terminated s); [done |].
      destruct (grpc.workers s !! i) as [[c answers p] |] eqn:Hi; [| done].
      destruct (serve_worker_ready _ _ _ Hok Hi) as [Hp _].
      simpl in Hp. by rewrite Hp in Hstep.
    + apply (IH s1); [by eapply step_preserves | done].
Qed.

Lemma exec_app (s : grpc.System) (evs evs' : list grpc.event) :
  grpc.exec s (evs ++ evs')
  = match grpc.exec s evs with
    | Some s' => grpc.exec s' evs'
    | None => None
    end.
Proof.
  revert s. induction evs as [| ev rest IH]; intros s; [done |].
  simpl. destruct (grpc.step s ev); [apply IH | done].
Qed.

Lemma exec_arrivals (s0 : grpc.Server) (cs q : list rpc_request)
    (ws : list grpc.Worker) (fs : list grpc.Finished) :
  grpc.started s0 = true ->
  grpc.exec (grpc.mkSystem s0 false q ws fs) (grpc.Arrive <$> cs)
  = Some (grpc.mkSystem s0 false (q ++ cs) ws fs).
Proof.
  intros Hs. revert q. induction cs as [| c cs IH]; intros q.
  - by rewrite app_nil_r.
  - simpl. unfold grpc.step. simpl. rewrite Hs.
    rewrite IH. by rewrite <- app_assoc.
Qed.

Lemma serve_step_Schedule (s : grpc.System) (c : rpc_request)
    (q : list rpc_request) :
  grpc.srv s = grpc.srv python_server.serve ->
  grpc.terminated s = false ->
  grpc.queue s = c :: q ->
  (length (grpc.workers s) < 10)%nat ->
  grpc.step s grpc.Schedule
  = Some {| grpc.srv := grpc.srv s; grpc.terminated := false; grpc.queue := q;
            grpc.workers := grpc.workers s ++ [ready c];
            grpc.finished := grpc.finished s |}.
Proof.
  intros Hsrv Ht Hq Hn. unfold grpc.step. rewrite Ht, Hq, Hsrv.
  rewrite serve_dispatch.
  destruct (decide _) as [_ | Hge]; [done |]. simpl in Hge. lia.
Qed.

Lemma exec_schedules (cs q : list rpc_request) (ws : list grpc.Worker)
    (fs : list grpc.Finished) :
  (length ws + length cs <= 10)%nat ->
  grpc.exec (grpc.mkSystem (grpc.srv python_server.serve) false (cs ++ q) ws fs)
    (replicate (length cs) grpc.Schedule)
  = Some (grpc.mkSystem (grpc.srv python_server.serve) false q
            (ws ++ (ready <$> cs)) fs).
Proof.
  revert ws. induction cs as [| c cs IH]; intros ws Hn.
  - by rewrite app_nil_r.
  - cbn [length replicate grpc.exec].
    rewrite (serve_step_Schedule _ c (cs ++ q));
      [| done | done | done | simpl in *; lia].
    cbn [grpc.srv grpc.workers grpc.finished].
    rewrite IH by (rewrite length_app; simpl in *; lia).
    by rewrite <- app_assoc.
Qed.

Lemma serve_ten (cs q : list rpc_request) :
  (length cs <= 10)%nat ->
  grpc.exec python_server.serve
    ((grpc.Arrive <$> (cs ++ q)%list) ++ replicate (length cs) grpc.Schedule)
  = Some (grpc.mkSystem (grpc.srv python_server.serve) false q
            (ready <$> cs) []).
Proof.
  intros Hn. rewrite exec_app.
  change python_server.serve
    with (grpc.mkSystem (grpc.srv python_server.serve) false [] [] []) at 1.
  rewrite exec_arrivals by done.
  change ([] ++ (cs ++ q))%list with (cs ++ q)%list.
  rewrite exec_schedules by (simpl; lia). reflexivity.
Qed.

Lemma serve_step_Complete (s : grpc.System) (i : nat) (w : grpc.Worker) :
  system_ok (grpc.srv python_server.serve) s ->
  grpc.terminated s = false ->
  grpc.workers s !! i = Some w ->
  grpc.step s (grpc.Complete i)
  = Some {| grpc.srv := grpc.srv s; grpc.terminated := false;
            grpc.queue := grpc.queue s;
            grpc.workers := delete i (grpc.workers s);
            grpc.finished := grpc.finished s ++ [answered (grpc.w_call w)] |}.
Proof.
  intros Hok Ht Hi.
  destruct (serve_worker_ready _ _ _ Hok Hi) as [Hp Ha].
  destruct w as [c answers p]. simpl in *. subst p answers.
  unfold grpc.step. by rewrite Ht, Hi.
Qed.

(** ** The bootstrap *)

(** C8.  [serve] opens one listener, without encryption, on the address
    "[::]:50052", whose TCP port is 50052; it gives the server a pool of 10
    threads; it registers the greeting servicer and the evaluation servicer
    on that one server while the server is not yet started, then starts it.
    The process then serves calls: a call that comes in is queued, a free
    pool thread takes the first queued call and hands it to the registered
    handler, and the call ends with the reply of that handler.  Ten calls
    can be served at once; the eleventh waits until a thread is free.  The
    configuration stays as it is, never more than 10 calls are being served
    at once, calls keep being accepted, and the process ends only by being
    told to terminate. *)
Theorem serve_bootstrap :
  let server := grpc.srv python_server.serve in
  grpc.ports server = [("[::]:50052", grpc.Insecure)]
  /\ grpc.port_of "[::]:50052" = Some 50052
  /\ futures.max_workers (grpc.pool server) = 10%nat
  /\ grpc.handlers server =
       [pb2_grpc.Greeter_handler python_server.Greeter.mk;
        pb2_grpc.IELTSService_handler python_server.IELTSService.mk]
  /\ (forall request,
        grpc.dispatch (grpc.handlers server) (SayHelloCall request)
        = Some (SayHelloReply <$>
                  python_server.Greeter.SayHello python_server.Greeter.mk request))
  /\ (forall request,
        grpc.dispatch (grpc.handlers server) (EvaluateIELTSCall request)
        = Some (EvaluateIELTSReply <$>
                  python_server.IELTSService.EvaluateIELTS
                    python_server.IELTSService.mk request))
  /\ grpc.started python_server.configured = false
  /\ grpc.handlers python_server.configured = grpc.handlers server
  /\ server = grpc.start python_server.configured
  /\ grpc.started server = true
  /\ grpc.terminated python_server.serve = false
  /\ (forall (evs : list grpc.event) (s : grpc.System),
       grpc.exec python_server.serve evs = Some s ->
       grpc.srv s = server
       /\ (length (grpc.workers s) <= 10)%nat
       /\ (grpc.terminated s = true <-> last evs = Some grpc.Terminate)
       /\ (grpc.terminated s = false ->
           forall c, is_Some (grpc.step s (grpc.Arrive c))))
  /\ (forall (evs : list grpc.event) (s : grpc.System),
       grpc.exec python_server.serve evs = Some s ->
       grpc.terminated s = false ->
       (forall c,
          grpc.step s (grpc.Arrive c)
          = Some {| grpc.srv := grpc.srv s; grpc.terminated := false;
                    grpc.queue := grpc.queue s ++ [c];
                    grpc.workers := grpc.workers s;
                    grpc.finished := grpc.finished s |})
       /\ (forall c q,
             grpc.queue s = c :: q ->
             (length (grpc.workers s) < 10)%nat ->
             grpc.step s grpc.Schedule
             = Some {| grpc.srv := grpc.srv s; grpc.terminated := false;
                       grpc.queue := q;
                       grpc.workers := grpc.workers s ++ [ready c];
                       grpc.finished := grpc.finished s |})
       /\ (forall c q,
             grpc.queue s = c :: q ->
             length (grpc.workers s) = 10%nat ->
             grpc.step s grpc.Schedule = None)
       /\ (forall i w,
             grpc.workers s !! i = Some w ->
             grpc.step s (grpc.Complete i)
             = Some {| grpc.srv := grpc.srv s; grpc.terminated := false;
                       grpc.queue := grpc.queue s;
                       grpc.workers := delete i (grpc.workers s);
                       grpc.finished :=
                         grpc.finished s ++ [answered (grpc.w_call w)] |}))
  /\ (forall c,
        grpc.exec python_server.serve
          [grpc.Arrive c; grpc.Schedule; grpc.Complete 0]
        = Some {| grpc.srv := server; grpc.terminated := false;
                  grpc.queue := []; grpc.workers := [];
                  grpc.finished := [answered c] |})
  /\ (forall cs : list rpc_request,
        length cs = 10%nat ->
        grpc.exec python_server.serve
          ((grpc.Arrive <$> cs) ++ replicate 10 grpc.Schedule)
        = Some {| grpc.srv := server; grpc.terminated := false;
                  grpc.queue := []; grpc.workers := ready <$> cs;
                  grpc.finished := [] |})
  /\ (forall (cs : list rpc_request) (c : rpc_request),
        length cs = 10%nat ->
        grpc.exec python_server.serve
          ((grpc.Arrive <$> (cs ++ [c])%list) ++ replicate 10 grpc.Schedule)
        = Some {| grpc.srv := server; grpc.terminated := false;
                  grpc.queue := [c]; grpc.workers := ready <$> cs;
                  grpc.finished := [] |}
        /\ grpc.exec python_server.serve
             ((grpc.Arrive <$> (cs ++ [c])%list) ++ replicate 10 grpc.Schedule
              ++ [grpc.Schedule])
           = None).
Proof.
  cbv zeta. repeat (split; [reflexivity |]).
  split; [| split; [| split; [| split]]].
  - intros evs s Hexec.
    destruct (exec_ok _ _ _ Hexec) as (Hsrv & _ & _ & Hn).
    split; [done |]. split; [exact Hn |]. split.
    + by apply (exec_terminated evs python_server.serve).
    + intros Ht c. apply step_Arrive; [done |]. by rewrite Hsrv.
  - intros evs s Hexec Ht.
    pose proof (exec_ok _ _ _ Hexec) as Hok.
    destruct Hok as (Hsrv & Hw & Hf & Hn).
    split; [| split; [| split]].
    + intros c. unfold grpc.step. by rewrite Ht, Hsrv.
    + intros c q Hq Hlt. by apply serve_step_Schedule.
    + intros c q Hq Hlen. unfold grpc.step. rewrite Ht, Hq, Hsrv.
      destruct (decide _) as [Hlt | _]; [| done]. simpl in Hlt. lia.
    + intros i w Hi. apply serve_step_Complete; [| done | done].
      by repeat split.
  - intros c.
    change [grpc.Arrive c; grpc.Schedule; grpc.Complete 0]
      with (((grpc.Arrive <$> ([c] ++ [])) ++
               replicate (length [c]) grpc.Schedule)
            ++ [grpc.Complete 0])%list.
    rewrite exec_app, (serve_ten [c] []) by (simpl; lia). reflexivity.
  - intros cs Hlen. rewrite <- Hlen.
    rewrite <- (app_nil_r cs) at 1. rewrite (serve_ten cs []) by lia.
    reflexivity.
  - intros cs c Hlen.
    assert (H10 :
      grpc.exec python_server.serve
        ((grpc.Arrive <$> (cs ++ [c])%list) ++ replicate 10 grpc.Schedule)
      = Some (grpc.mkSystem (grpc.srv python_server.serve) false [c]
                (ready <$> cs) [])).
    { rewrite <- Hlen. apply serve_ten. lia. }
    split; [exact H10 |].
    rewrite app_assoc, exec_app, H10. simpl. unfold grpc.step. simpl.
    rewrite length_fmap, Hlen. reflexivity.
Qed.

Lemma serve_bootstrap_witness :
  exists s,
    grpc.exec python_server.serve
      [grpc.Arrive (EvaluateIELTSCall scenario_request); grpc.Schedule;
       grpc.Complete 0; grpc.Terminate] = Some s
    /\ grpc.srv s = grpc.srv python_server.serve
    /\ (length (grpc.workers s) <= 10)%nat
    /\ grpc.terminated s = true.
Proof.
  eexists. split; [reflexivity |].
  destruct (proj1 (proj2 (proj2 (proj2 (proj2 (proj2 (proj2 (proj2 (proj2
             (proj2 (proj2 (proj2 serve_bootstrap)))))))))))
             [grpc.Arrive (EvaluateIELTSCall scenario_request); grpc.Schedule;
              grpc.Complete 0; grpc.Terminate] _ eq_refl)
    as (Hsrv & Hn & Ht & _).
  split; [exact Hsrv |]. split; [exact Hn |]. apply Ht. reflexivity.
Defined.

(** ** The handler that is registered *)

Lemma delegating_handler_calls (self : ielts_service.IELTSService.t)
    (request : EvaluationRequest) :
  exists rq k,
    pb2_grpc.IELTSService_handler self (EvaluateIELTSCall request)
    = Some (Call rq k).
Proof. by eexists _, _. Qed.

(** C4.  The evaluation handler that [serve] registers is the stub of
    [python_server.py]: for every request the call is answered at once,
    without any HTTP exchange, with status OK and a response that echoes
    the request and carries "Evaluation not implemented yet.".  No handler
    of the delegating servicer of [ielts_service.py] is among the registered
    ones, at the start or at any later time. *)
Theorem registered_handler_is_the_stub :
  (forall request,
      grpc.dispatch (grpc.handlers (grpc.srv python_server.serve))
        (EvaluateIELTSCall request)
      = Some (Ret (EvaluateIELTSReply
                     (echo_with request "Evaluation not implemented yet."))))
  /\ (forall request answers,
        rpc_outcome (grpc.handlers (grpc.srv python_server.serve))
          (EvaluateIELTSCall request) answers
        = Some (grpc.OK (EvaluateIELTSReply
                  (echo_with request "Evaluation not implemented yet."))))
  /\ (forall request answers,
        sent (python_server.IELTSService.EvaluateIELTS
                python_server.IELTSService.mk request) answers = [])
  /\ (forall (evs : list grpc.event) (s : grpc.System)
             (self : ielts_service.IELTSService.t),
        grpc.exec python_server.serve evs = Some s ->
        pb2_grpc.IELTSService_handler self ∉ grpc.handlers (grpc.srv s)).
Proof.
  split; [done |]. split; [done |]. split; [done |].
  intros evs s self Hexec.
  destruct (exec_ok _ _ _ Hexec) as (-> & _).
  destruct (delegating_handler_calls self scenario_request) as (rq & k & Hcall).
  intros Hin. simpl in Hin.
  apply elem_of_cons in Hin as [Heq | Hin].
  - rewrite Heq in Hcall. discriminate Hcall.
  - apply elem_of_cons in Hin as [Heq | Hin].
    + rewrite Heq in Hcall. discriminate Hcall.
    + by apply elem_of_nil in Hin.
Qed.

Lemma registered_handler_is_the_stub_witness :
  pb2_grpc.IELTSService_handler ielts_service.IELTSService.__init__
    ∉ grpc.handlers (grpc.srv python_server.serve).
Proof.
  apply (proj2 (proj2 (proj2 registered_handler_is_the_stub))
           [] python_server.serve ielts_service.IELTSService.__init__).
  reflexivity.
Defined.

(** ** The greeting *)

Example SayHello_World :
  python_server.Greeter.SayHello python_server.Greeter.mk {| name := "World" |}
  = Ret {| message := "Hello, World!" |}.
Proof. reflexivity. Qed.

(** C10.  For every HelloRequest with name [n], [SayHello] returns the
    HelloReply whose message is "Hello, " followed by [n] followed by "!";
    that is also what a SayHello call to the server of [serve] is answered
    with. *)
Theorem SayHello_greets (self : python_server.Greeter.t) (n : string) :
  python_server.Greeter.SayHello self {| name := n |}
  = Ret {| message := "Hello, " +:+ n +:+ "!" |}
  /\ (forall request reply,
        python_server.Greeter.SayHello self request = Ret reply ->
        message reply = "Hello, " +:+ name request +:+ "!")
  /\ forall answers,
       rpc_outcome (grpc.handlers (grpc.srv python_server.serve))
         (SayHelloCall {| name := n |}) answers
       = Some (grpc.OK (SayHelloReply {| message := "Hello, " +:+ n +:+ "!" |})).
Proof.
  split; [reflexivity |]. split; [| intros answers; reflexivity].
  intros request reply H. unfold python_server.Greeter.SayHello in H.
  injection H as <-. reflexivity.
Qed.

Lemma SayHello_greets_witness :
  message {| message := "Hello, World!" |} = "Hello, World!".
Proof.
  apply (proj1 (proj2 (SayHello_greets python_server.Greeter.mk "World"))
           {| name := "World" |} {| message := "Hello, World!" |}).
  reflexivity.
Defined.

(** * Further properties of the code *)

(** ** The client on other answers *)

(** X1.  When the external API answers with status 200 and a body that is
    not JSON, [evaluate_ielts] returns nothing: the [JSONDecodeError] of
    [response.json()] leaves it, then the handler, and the call ends with
    status UNKNOWN. *)
Theorem body_not_json_is_a_fault
    (self : ielts_service.IELTSService.t) (request : EvaluationRequest)
    (loc : option string) (rest : list HttpOutcome) :
  let answer :=
    Delivered {| status_code := 200; location := loc; body_json := None |} in
  run (ClaudeRepository.evaluate_ielts
         (ielts_service.IELTSService.claude_repository self)
         (to_claude request)) (answer :: rest)
  = Some (Raised JSONDecodeError)
  /\ run (ielts_service.IELTSService.EvaluateIELTS self request) (answer :: rest)
     = Some (Raised JSONDecodeError)
  /\ rpc_outcome (delegating self) (EvaluateIELTSCall request) (answer :: rest)
     = Some (grpc.UNKNOWN JSONDecodeError).
Proof.
  cbv zeta.
  set (r := {| status_code := 200; location := loc; body_json := None |}).
  assert (Hp : post_result (Delivered r :: rest) = Some (Returned r)).
  { by apply post_result_direct, follows_200. }
  split; [| split].
  - by rewrite run_evaluate_ielts, Hp.
  - by rewrite run_EvaluateIELTS, run_evaluate_ielts, Hp.
  - by rewrite rpc_outcome_delegating, Hp.
Qed.

(** X2.  When the external API answers with status 200 and a JSON document
    that is not an object (a list, a text, a number, a truth value, null),
    subscripting it with "content" raises [TypeError], which leaves the
    client and the handler; the call ends with status UNKNOWN. *)
Theorem body_not_object_is_a_fault
    (self : ielts_service.IELTSService.t) (request : EvaluationRequest)
    (j : json) (loc : option string) (rest : list HttpOutcome) :
  ~ is_object j ->
  let answer :=
    Delivered {| status_code := 200; location := loc; body_json := Some j |} in
  run (ClaudeRepository.evaluate_ielts
         (ielts_service.IELTSService.claude_repository self)
         (to_claude request)) (answer :: rest)
  = Some (Raised TypeError)
  /\ run (ielts_service.IELTSService.EvaluateIELTS self request) (answer :: rest)
     = Some (Raised TypeError)
  /\ rpc_outcome (delegating self) (EvaluateIELTSCall request) (answer :: rest)
     = Some (grpc.UNKNOWN TypeError).
Proof.
  intros Hj. cbv zeta.
  set (r := {| status_code := 200; location := loc; body_json := Some j |}).
  assert (Hc : client_result r = Raised TypeError).
  { destruct j; done. }
  assert (Hp : post_result (Delivered r :: rest) = Some (Returned r)).
  { by apply post_result_direct, follows_200. }
  split; [| split].
  - rewrite run_evaluate_ielts, Hp. cbn. by rewrite Hc.
  - rewrite run_EvaluateIELTS, run_evaluate_ielts, Hp. cbn. by rewrite Hc.
  - rewrite rpc_outcome_delegating, Hp. cbn. by rewrite Hc.
Qed.

Lemma body_not_object_is_a_fault_witness :
  run (ielts_service.IELTSService.EvaluateIELTS
         ielts_service.IELTSService.__init__ scenario_request)
      [Delivered {| status_code := 200; location := None;
                    body_json := Some (JArr [JStr "Good job."]) |}]
  = Some (Raised TypeError).
Proof.
  apply (body_not_object_is_a_fault ielts_service.IELTSService.__init__
           scenario_request (JArr [JStr "Good job."]) None []).
  simpl. tauto.
Defined.

Lemma client_result_returned (r : Response)
    (reply : EvaluationResponseFromClaude) :
  client_result r = Returned reply <-> answered_with r reply.
Proof.
  unfold client_result, answered_with. destruct reply as [text]. simpl. split.
  - destruct (decide (status_code r = 200)) as [E | E]; intros H.
    + right. split; [done |].
      destruct (body_json r) as [[| | | | | | d] |]; try done.
      exists d. split; [done |].
      destruct (d !! "content") as [[| | | | text' | |] |]; try done.
      * right. by simplify_eq.
      * left. by simplify_eq.
    + left. split; [done |]. by simplify_eq.
  - intros [[E H] | (E & d & Hbody & [Hd | [Hd H]])].
    + destruct (decide (status_code r = 200)); [done |]. by rewrite H.
    + destruct (decide (status_code r = 200)); [| done]. by rewrite Hbody, Hd.
    + destruct (decide (status_code r = 200)); [| done].
      by rewrite Hbody, Hd, H.
Qed.

(** X3.  [evaluate_ielts] returns a reply exactly when [requests.post]
    returns a response, redirects followed, that either has a status other
    than 200, and then the reply is the fixed error text, or has status 200
    and a JSON object whose field "content" is a text, and then the reply
    is that text, or is null, and then the reply is the empty text.  In
    every other case it returns nothing. *)
Theorem evaluate_ielts_returns_iff
    (self : ClaudeRepository.t) (request : EvaluationRequestToClaude)
    (answers : list HttpOutcome) (reply : EvaluationResponseFromClaude) :
  run (ClaudeRepository.evaluate_ielts self request) answers
    = Some (Returned reply)
  <-> exists r,
        run (requests_post (ClaudeRepository.api_url self)
               (ClaudeRepository.build_data
                  (ClaudeRepository.build_prompt request))
               (ClaudeRepository.build_headers self)) answers
          = Some (Returned r)
        /\ answered_with r reply.
Proof.
  rewrite run_evaluate_ielts, run_requests_post. split.
  - intros H. destruct (post_result answers) as [[r | e] |]; simplify_eq /=.
    exists r. split; [done |]. by apply client_result_returned.
  - intros (r & -> & Hr). simpl. apply client_result_returned in Hr.
    by rewrite Hr.
Qed.

Lemma evaluate_ielts_returns_iff_witness :
  run (ClaudeRepository.evaluate_ielts ClaudeRepository.__init__
         (to_claude scenario_request))
      [moved;
       Delivered {| status_code := 200; location := None;
                    body_json := Some (JObj {[ "content" := JNull ]}) |}]
  = Some (Returned {| evaluation := "" |}).
Proof.
  apply (proj2 (evaluate_ielts_returns_iff ClaudeRepository.__init__
                  (to_claude scenario_request) _ {| evaluation := "" |})).
  eexists. split; [reflexivity |].
  right. split; [reflexivity |]. eexists. split; [reflexivity |].
  right. split; reflexivity.
Defined.

(** X4.  What [evaluate_ielts] returns or raises is decided by the answers
    of the network alone: two calls with different requests, on different
    repository objects, end alike when they get the same answers.  So the
    evaluation text of the handler's response never depends on the request:
    the request shows only in the echoed fields. *)
Theorem evaluation_depends_on_answer_only
    (answers : list HttpOutcome) :
  (forall (self self' : ClaudeRepository.t)
          (request request' : EvaluationRequestToClaude),
      run (ClaudeRepository.evaluate_ielts self request) answers
      = run (ClaudeRepository.evaluate_ielts self' request') answers)
  /\ (forall (self self' : ielts_service.IELTSService.t)
             (request request' : EvaluationRequest)
             (response response' : EvaluationResponseFromToDataBase),
        run (ielts_service.IELTSService.EvaluateIELTS self request) answers
          = Some (Returned response) ->
        run (ielts_service.IELTSService.EvaluateIELTS self' request') answers
          = Some (Returned response') ->
        evaluation_from_claude response = evaluation_from_claude response').
Proof.
  assert (Hclient : forall self self' request request',
             run (ClaudeRepository.evaluate_ielts self request) answers
             = run (ClaudeRepository.evaluate_ielts self' request') answers).
  { intros. by rewrite !run_evaluate_ielts. }
  split; [exact Hclient |].
  intros self self' request request' response response' H H'.
  rewrite run_EvaluateIELTS in H, H'.
  rewrite (Hclient _ (ielts_service.IELTSService.claude_repository self')
             _ (to_claude request')) in H.
  destruct (run _ answers) as [[reply | e] |]; simplify_eq /=. done.
Qed.

Lemma evaluation_depends_on_answer_only_witness :
  evaluation_from_claude (echo_with scenario_request "Good job.")
  = evaluation_from_claude (echo_with other_request "Good job.").
Proof.
  apply (proj2 (evaluation_depends_on_answer_only [good_job])
           ielts_service.IELTSService.__init__
           ielts_service.IELTSService.__init__
           scenario_request other_request); reflexivity.
Defined.

(** X5.  A caller cannot tell a failure of the external API from an
    evaluation that happens to read like the error text: an answer with a
    status other than 200 that is no redirect to follow and an answer with
    status 200 whose content is
    "Error: Unable to get evaluation from Claude." give the same response. *)
Theorem failure_looks_like_an_evaluation
    (self : ielts_service.IELTSService.t) (request : EvaluationRequest)
    (status : Z) (loc loc' : option string) (body : option json)
    (d : gmap string json) (rest rest' : list HttpOutcome) :
  status <> 200 ->
  follows {| status_code := status; location := loc; body_json := body |}
    = false ->
  d !! "content" = Some (JStr "Error: Unable to get evaluation from Claude.") ->
  run (ielts_service.IELTSService.EvaluateIELTS self request)
      (Delivered {| status_code := status; location := loc;
                    body_json := body |} :: rest)
  = run (ielts_service.IELTSService.EvaluateIELTS self request)
        (Delivered {| status_code := 200; location := loc';
                      body_json := Some (JObj d) |} :: rest').
Proof.
  intros Hstatus Hf Hd.
  rewrite !run_EvaluateIELTS.
  rewrite !run_evaluate_ielts_direct; [| by apply follows_200 | done].
  unfold client_result. simpl.
  destruct (decide (status = 200)); [done |]. by rewrite Hd.
Qed.

Lemma failure_looks_like_an_evaluation_witness :
  run (ielts_service.IELTSService.EvaluateIELTS
         ielts_service.IELTSService.__init__ scenario_request) [server_error]
  = run (ielts_service.IELTSService.EvaluateIELTS
           ielts_service.IELTSService.__init__ scenario_request)
        [Delivered {| status_code := 200; location := None;
                      body_json :=
                        Some (JObj {[ "content" := JStr error_literal ]}) |}].
Proof.
  apply (failure_looks_like_an_evaluation ielts_service.IELTSService.__init__
           scenario_request 500 None None None
           {[ "content" := JStr error_literal ]} [] []).
  - lia.
  - reflexivity.
  - reflexivity.
Defined.

(** ** The messages of one call *)

Lemma bounded_resolve_redirects (budget : nat) (req : Message) (r : Response) :
  bounded budget (resolve_redirects budget req r).
Proof.
  revert req r. induction budget as [| budget IH]; intros req r; simpl;
    destruct (follows r); simpl; try done.
  intros [f | r']; [done | apply IH].
Qed.

Lemma bounded_requests_post (u : string) (data : json)
    (hdrs : gmap string string) :
  bounded (S max_redirects) (requests_post u data hdrs).
Proof.
  intros [f | r]; [done | apply bounded_resolve_redirects].
Qed.

Lemma bounded_bind_lift {A B : Type} (n : nat) (p : Prog A) (g : A -> Prog B)
    (f : A -> result B) :
  (forall a, g a = lift (f a)) -> bounded n p -> bounded n (bind p g).
Proof.
  intros Hg. revert n. induction p as [a | e | rq k IH]; intros n Hp.
  - simpl. rewrite Hg. by destruct (f a).
  - done.
  - destruct n as [| n]; [done |]. intros o. apply IH, Hp.
Qed.

Lemma bounded_fmap {A B : Type} (n : nat) (f : A -> B) (p : Prog A) :
  bounded n p -> bounded n (f <$> p).
Proof.
  apply (bounded_bind_lift n p _ (fun a => Returned (f a))). done.
Qed.

Lemma evaluate_ielts_continuation (r : Response) :
  (if decide (status_code r = 200)
   then body ← response_json r;
        claude_evaluation ← getitem body "content";
        new_EvaluationResponseFromClaude claude_evaluation
   else Ret {| evaluation := "Error: Unable to get evaluation from Claude." |})
  = lift (client_result r).
Proof.
  destruct r as [status loc body]. unfold client_result. cbn.
  destruct (decide (status = 200)); [| done].
  destruct body as [[| | | | | | d] |]; try done.
  cbn. destruct (d !! "content") as [[| | | | | |] |]; done.
Qed.

Lemma bounded_evaluate_ielts (self : ClaudeRepository.t)
    (request : EvaluationRequestToClaude) :
  bounded (S max_redirects) (ClaudeRepository.evaluate_ielts self request).
Proof.
  apply (bounded_bind_lift _ _ _ client_result).
  - apply evaluate_ielts_continuation.
  - apply bounded_requests_post.
Qed.

Lemma bounded_EvaluateIELTS (self : ielts_service.IELTSService.t)
    (request : EvaluationRequest) :
  bounded (S max_redirects)
    (ielts_service.IELTSService.EvaluateIELTS self request).
Proof.
  apply (bounded_fmap _ (fun r => echo_with request (evaluation r))).
  apply bounded_evaluate_ielts.
Qed.

Lemma sent_bounded {A : Type} (n : nat) (p : Prog A)
    (answers : list HttpOutcome) :
  bounded n p -> (length (sent p answers) <= n)%nat.
Proof.
  revert n answers. induction p as [a | e | rq k IH]; intros n answers Hp;
    [simpl; lia | simpl; lia |].
  destruct n as [| n]; [done |].
  destruct answers as [| o rest]; simpl; [lia |].
  specialize (IH o n rest (Hp o)). lia.
Qed.

Lemma feed_bounded {A : Type} (n : nat) (p q : Prog A)
    (answers : list HttpOutcome) :
  bounded n p -> feed p answers = Some q -> (length answers <= n)%nat.
Proof.
  revert n p. induction answers as [| o rest IH]; intros n p Hp H;
    [simpl; lia |].
  destruct p as [a | e | rq k]; [done | done |].
  destruct n as [| n]; [done |].
  simpl in *. specialize (IH n (k o) (Hp o) H). lia.
Qed.

Lemma sent_requests_post (u : string) (data : json)
    (hdrs : gmap string string) (answers : list HttpOutcome) :
  exists more,
    sent (requests_post u data hdrs) answers
    = Sent {| method := POST; url := u; headers := hdrs;
              json_payload := data |} :: more
    /\ (length more <= max_redirects)%nat
    /\ (forall f rest, answers = TransportFailure f :: rest -> more = [])
    /\ (forall r rest, answers = Delivered r :: rest -> follows r = false ->
          more = []).
Proof.
  destruct answers as [| [f | r] rest].
  - exists []. repeat split; simpl; try done; lia.
  - exists []. repeat split; simpl; try done; lia.
  - eexists. split; [reflexivity |]. split; [| split].
    + apply sent_bounded, bounded_resolve_redirects.
    + done.
    + intros r' rest' H Hf. simplify_eq.
      by rewrite settle_direct_prog.
Qed.

(** X6.  One call of the delegating handler first sends the message that
    the client builds from the six fields of the handler's own request.
    After a failure below HTTP, or a response that is no redirect to follow,
    whatever its status, it sends nothing more: it does not try again.  In
    all it sends at most 31 messages, the first and the follow-ups of at
    most 30 redirects.  For the service that [IELTSService()] builds the
    first message goes to the fixed endpoint and carries the key of the
    repository. *)
Theorem EvaluateIELTS_sends_one_message
    (self : ielts_service.IELTSService.t) (request : EvaluationRequest)
    (answers : list HttpOutcome) :
  (exists more,
     sent (ielts_service.IELTSService.EvaluateIELTS self request) answers
     = outgoing self request :: more
     /\ sent (ClaudeRepository.evaluate_ielts
                (ielts_service.IELTSService.claude_repository self)
                (to_claude request)) answers
        = outgoing self request :: more
     /\ (length more <= 30)%nat
     /\ (forall f rest, answers = TransportFailure f :: rest -> more = [])
     /\ (forall r rest, answers = Delivered r :: rest -> follows r = false ->
           more = []))
  /\ exists rq,
       outgoing ielts_service.IELTSService.__init__ request = Sent rq
       /\ url rq = "https://api.anthropic.com/v1/messages"
       /\ headers rq !! "X-API-Key"
          = Some (ClaudeRepository.api_key ClaudeRepository.__init__).
Proof.
  split; [| by eexists].
  destruct (sent_requests_post
              (ClaudeRepository.api_url
                 (ielts_service.IELTSService.claude_repository self))
              (ClaudeRepository.build_data
                 (ClaudeRepository.build_prompt (to_claude request)))
              (ClaudeRepository.build_headers
                 (ielts_service.IELTSService.claude_repository self))
              answers) as (more & Hsent & Hlen & Hfail & Hdirect).
  assert (Hclient :
    sent (ClaudeRepository.evaluate_ielts
            (ielts_service.IELTSService.claude_repository self)
            (to_claude request)) answers = outgoing self request :: more).
  { unfold outgoing. rewrite <- Hsent.
    apply (sent_bind_lift _ _ client_result), evaluate_ielts_continuation. }
  exists more. split; [| by repeat split].
  rewrite <- Hclient. symmetry.
  rewrite <- (sent_fmap (fun r => echo_with request (evaluation r))).
  reflexivity.
Qed.

Lemma EvaluateIELTS_sends_one_message_witness :
  exists more,
    sent (ielts_service.IELTSService.EvaluateIELTS
            ielts_service.IELTSService.__init__ scenario_request)
         [server_error; good_job]
    = outgoing ielts_service.IELTSService.__init__ scenario_request :: more
    /\ more = [].
Proof.
  destruct (proj1 (EvaluateIELTS_sends_one_message
              ielts_service.IELTSService.__init__ scenario_request
              [server_error; good_job]))
    as (more & H & _ & _ & _ & Hdirect).
  exists more. split; [exact H |].
  apply (Hdirect {| status_code := 500; location := None; body_json := None |}
           [good_job]); reflexivity.
Defined.

(** ** The prompt *)

Lemma length_append (a b : string) :
  String.length (a +:+ b) = (String.length a + String.length b)%nat.
Proof.
  induction a as [| c a IH]; [done |].
  change (S (String.length (a +:+ b)) = S (String.length a + String.length b)).
  by rewrite IH.
Qed.

(** X7.  The prompt holds the six fields in full: its length is the 403
    characters of the template plus the lengths of the six fields, whatever
    their size, the empty text included. *)
Theorem build_prompt_length (request : EvaluationRequestToClaude) :
  String.length (ClaudeRepository.build_prompt request)
  = (403 + String.length (passage request)
         + String.length (question request)
         + String.length (student_response request)
         + String.length (complex_sentences request)
         + String.length (advanced_vocabulary request)
         + String.length (cohesive_devices request))%nat.
Proof.
  unfold ClaudeRepository.build_prompt.
  rewrite !length_append. unfold LF. simpl String.length. lia.
Qed.

(** X8.  The fields go into the prompt as they are, without quoting: a
    passage that ends with a line break and the words of the next label
    reads like the start of the question.  Two requests that differ in
    passage and question then give the same prompt, for all texts [a], [b]
    and [c]. *)
Theorem build_prompt_not_injective
    (a b c response complex advanced cohesive : string) :
  let injected :=
    {| passage := a +:+ LF +:+ "        Question: " +:+ b;
       question := c;
       student_response := response; complex_sentences := complex;
       advanced_vocabulary := advanced; cohesive_devices := cohesive |} in
  let plain :=
    {| passage := a;
       question := b +:+ LF +:+ "        Question: " +:+ c;
       student_response := response; complex_sentences := complex;
       advanced_vocabulary := advanced; cohesive_devices := cohesive |} in
  ClaudeRepository.build_prompt injected = ClaudeRepository.build_prompt plain
  /\ injected <> plain.
Proof.
  cbv zeta. split.
  - unfold ClaudeRepository.build_prompt. simpl.
    rewrite !append_assoc. reflexivity.
  - intros H. injection H as Ha _.
    apply (f_equal String.length) in Ha.
    rewrite !length_append in Ha. unfold LF in Ha. simpl in Ha. lia.
Qed.

Lemma append_cancel (a x y : string) : a +:+ x = a +:+ y -> x = y.
Proof.
  induction a as [| ch a IH]; [done |]. intros H.
  change (String ch (a +:+ x) = String ch (a +:+ y)) in H.
  injection H as H. by apply IH.
Qed.

Lemma append_cancel_r (x y a : string) : x +:+ a = y +:+ a -> x = y.
Proof.
  revert y. induction x as [| cx x IH]; intros [| cy y] H.
  - done.
  - apply (f_equal String.length) in H. rewrite !length_append in H.
    simpl in H. lia.
  - apply (f_equal String.length) in H. rewrite !length_append in H.
    simpl in H. lia.
  - change (String cx (x +:+ a) = String cy (y +:+ a)) in H.
    injection H as -> H. f_equal. by apply IH.
Qed.

Lemma one_line_split (x y r r' : string) :
  one_line x = true -> one_line y = true ->
  x +:+ LF +:+ r = y +:+ LF +:+ r' -> x = y /\ r = r'.
Proof.
  revert y. induction x as [| cx x IH]; intros [| cy y] Hx Hy H.
  - split; [done |]. by injection H.
  - exfalso. change (String "010" r = String cy (y +:+ LF +:+ r')) in H.
    injection H as <- _. simpl in Hy. done.
  - exfalso. change (String cx (x +:+ LF +:+ r) = String "010" r') in H.
    injection H as -> _. simpl in Hx. done.
  - change (String cx (x +:+ LF +:+ r) = String cy (y +:+ LF +:+ r')) in H.
    injection H as -> H. simpl in Hx, Hy.
    destruct (decide (cy = "010"%char)); [done |].
    destruct (IH y Hx Hy H) as [-> ->]. done.
Qed.

(** X9.  When no field holds a line break, the prompt tells the request:
    two requests with such fields and the same prompt are the same
    request. *)
Theorem build_prompt_injective_on_lines
    (request request' : EvaluationRequestToClaude) :
  fields_one_line request -> fields_one_line request' ->
  ClaudeRepository.build_prompt request = ClaudeRepository.build_prompt request' ->
  request = request'.
Proof.
  destruct request as [p q r cs av cd], request' as [p' q' r' cs' av' cd'].
  intros (Hp & Hq & Hr & Hcs & Hav & Hcd) (Hp' & Hq' & Hr' & Hcs' & Hav' & Hcd').
  simpl in *. unfold ClaudeRepository.build_prompt. simpl. intros H.
  do 5 apply append_cancel in H.
  apply one_line_split in H as [-> H]; [| done | done].
  apply append_cancel in H.
  apply one_line_split in H as [-> H]; [| done | done].
  apply append_cancel in H.
  apply one_line_split in H as [-> H]; [| done | done].
  do 4 apply append_cancel in H.
  apply one_line_split in H as [-> H]; [| done | done].
  apply append_cancel in H.
  apply one_line_split in H as [-> H]; [| done | done].
  apply append_cancel in H.
  apply one_line_split in H as [-> H]; [| done | done].
  reflexivity.
Qed.

Lemma build_prompt_injective_on_lines_witness :
  to_claude scenario_request = to_claude scenario_request.
Proof.
  apply (build_prompt_injective_on_lines
           (to_claude scenario_request) (to_claude scenario_request)).
  - repeat split.
  - repeat split.
  - reflexivity.
Defined.

(** ** The greeting *)

(** X10.  The greeting tells the name: [SayHello] gives different messages
    for different names, and the message is eight characters longer than
    the name. *)
Theorem SayHello_injective (self : python_server.Greeter.t)
    (request request' : HelloRequest) :
  (python_server.Greeter.SayHello self request
   = python_server.Greeter.SayHello self request' ->
   request = request')
  /\ forall reply,
       python_server.Greeter.SayHello self request = Ret reply ->
       String.length (message reply) = (String.length (name request) + 8)%nat.
Proof.
  split.
  - destruct request as [n], request' as [n'].
    unfold python_server.Greeter.SayHello. simpl. intros H.
    injection H as H. apply append_cancel in H.
    apply append_cancel_r in H. by rewrite H.
  - intros reply H. unfold python_server.Greeter.SayHello in H.
    injection H as <-. simpl message.
    rewrite !length_append. simpl. lia.
Qed.

Lemma SayHello_injective_witness :
  String.length (message {| message := "Hello, World!" |})
  = (String.length (name {| name := "World" |}) + 8)%nat.
Proof.
  apply (proj2 (SayHello_injective python_server.Greeter.mk
                  {| name := "World" |} {| name := "World" |})).
  reflexivity.
Defined.

(** ** The serving process, call by call *)

(** X11.  Every call that the server of [serve] has served, in any
    interleaving with any other calls, ended with status OK, never with an
    error, and without a single HTTP exchange: a SayHello call with the
    greeting for its own name, an EvaluateIELTS call with the echo of its
    own request and the stub text. *)
Theorem serve_calls_end_OK (evs : list grpc.event) (s : grpc.System)
    (f : grpc.Finished) :
  grpc.exec python_server.serve evs = Some s ->
  f ∈ grpc.finished s ->
  grpc.f_status f = grpc.OK (stub_reply (grpc.f_call f))
  /\ grpc.f_answers f = [].
Proof.
  intros Hexec Hin.
  pose proof (exec_finished_exact _ _ _ _ Hexec Hin) as H.
  unfold finished_exact in H.
  change (grpc.handlers (grpc.start python_server.configured))
    with (grpc.handlers (grpc.srv python_server.serve)) in H.
  rewrite serve_dispatch in H.
  destruct (grpc.f_status f) as [v | e |]; [| | done].
  - apply feed_Ret in H as [-> H]. by simplify_eq.
  - by apply feed_Ret in H as [_ H].
Qed.

Lemma serve_calls_end_OK_witness :
  grpc.OK (SayHelloReply {| message := "Hello, World!" |})
  = grpc.OK (stub_reply (SayHelloCall {| name := "World" |}))
  /\ @nil HttpOutcome = [].
Proof.
  eapply (serve_calls_end_OK
            [grpc.Arrive (SayHelloCall {| name := "World" |});
             grpc.Arrive (EvaluateIELTSCall scenario_request);
             grpc.Schedule; grpc.Schedule; grpc.Complete 1; grpc.Complete 0]
            _
            (grpc.mkFinished (SayHelloCall {| name := "World" |}) []
               (grpc.OK (SayHelloReply {| message := "Hello, World!" |})))).
  - reflexivity.
  - vm_compute. apply list_elem_of_further, list_elem_of_here.
Defined.

(** X12.  The server of [serve] never talks to the external API: no
    execution of it holds an answer of the network to a pool thread, because
    every pool thread that serves a call has its reply ready at once and can
    end the call without waiting. *)
Theorem serve_never_calls_out (evs : list grpc.event) (s : grpc.System) :
  grpc.exec python_server.serve evs = Some s ->
  (forall i o, grpc.Answer i o ∉ evs)
  /\ (forall i w, grpc.workers s !! i = Some w ->
        grpc.w_prog w = Ret (stub_reply (grpc.w_call w))
        /\ grpc.w_answers w = []
        /\ (grpc.terminated s = false -> is_Some (grpc.step s (grpc.Complete i)))).
Proof.
  intros Hexec. pose proof (exec_ok _ _ _ Hexec) as Hok. split.
  - eapply serve_no_Answer; [apply wait_for_termination_ok | exact Hexec].
  - intros i w Hi.
    destruct (serve_worker_ready _ _ _ Hok Hi) as [Hp Ha].
    split; [done |]. split; [done |]. intros Ht.
    unfold grpc.step. rewrite Ht, Hi. destruct w as [c answers p].
    simpl in Hp. by rewrite Hp.
Qed.

Lemma serve_never_calls_out_witness :
  grpc.Answer 0 good_job ∉
    [grpc.Arrive (EvaluateIELTSCall scenario_request); grpc.Schedule;
     grpc.Complete 0].
Proof.
  eapply (proj1 (serve_never_calls_out
            [grpc.Arrive (EvaluateIELTSCall scenario_request); grpc.Schedule;
             grpc.Complete 0] _ _) 0%nat good_job).
  Unshelve. 2: reflexivity.
Defined.

Lemma delegating_program (self : ielts_service.IELTSService.t)
    (request : EvaluationRequest) :
  exists rq k,
    grpc.dispatch (grpc.handlers (delegating_server self))
      (EvaluateIELTSCall request) = Some (Call rq k)
    /\ bounded (S max_redirects) (Call rq k).
Proof.
  eexists _, _. split; [reflexivity |].
  apply (bounded_fmap _ EvaluateIELTSReply
           (ielts_service.IELTSService.EvaluateIELTS self request)).
  apply bounded_EvaluateIELTS.
Qed.

(** X13.  On a server with the delegating handler, every EvaluateIELTS call
    that ended, in any interleaving, got at least one answer of the network
    and at most 31: not one call ends without asking the external API, and
    redirects are followed 30 times at most.  A SayHello call on the same
    server got none and ended with status OK and its greeting, whatever the
    external API did to the other calls. *)
Theorem delegating_calls_use_one_answer
    (self : ielts_service.IELTSService.t) (evs : list grpc.event)
    (s : grpc.System) (f : grpc.Finished) :
  grpc.exec (grpc.wait_for_termination (delegating_server self)) evs = Some s ->
  f ∈ grpc.finished s ->
  match grpc.f_call f with
  | EvaluateIELTSCall _ =>
      (1 <= length (grpc.f_answers f) <= 31)%nat
      /\ grpc.f_status f <> grpc.UNIMPLEMENTED
  | SayHelloCall _ =>
      grpc.f_answers f = []
      /\ grpc.f_status f = grpc.OK (stub_reply (grpc.f_call f))
  end.
Proof.
  intros Hexec Hin.
  pose proof (exec_finished_exact _ _ _ _ Hexec Hin) as H.
  unfold finished_exact in H.
  destruct (grpc.f_call f) as [r | r] eqn:Hcall.
  - change (grpc.dispatch (grpc.handlers (delegating_server self))
              (SayHelloCall r))
      with (Some (Ret (stub_reply (SayHelloCall r)))) in H.
    destruct (grpc.f_status f) as [v | e |]; [| | done].
    + apply feed_Ret in H as [-> H]. by simplify_eq.
    + by apply feed_Ret in H as [_ H].
  - destruct (delegating_program self r) as (rq & k & Hd & Hk).
    rewrite Hd in H.
    destruct (grpc.f_status f) as [v | e |]; [| | done].
    + pose proof (feed_bounded _ _ _ _ Hk H) as Hlen.
      destruct (grpc.f_answers f); [done |].
      split; [simpl in *; unfold max_redirects in Hlen; lia | done].
    + pose proof (feed_bounded _ _ _ _ Hk H) as Hlen.
      destruct (grpc.f_answers f); [done |].
      split; [simpl in *; unfold max_redirects in Hlen; lia | done].
Qed.

Lemma delegating_calls_use_one_answer_witness :
  (1 <= length [server_error] <= 31)%nat
  /\ grpc.OK (EvaluateIELTSReply (echo_with scenario_request error_literal))
     <> grpc.UNIMPLEMENTED.
Proof.
  eapply (delegating_calls_use_one_answer
            ielts_service.IELTSService.__init__ two_calls _
            (grpc.mkFinished (EvaluateIELTSCall scenario_request) [server_error]
               (grpc.OK (EvaluateIELTSReply
                           (echo_with scenario_request error_literal))))).
  - reflexivity.
  - vm_compute. apply list_elem_of_further, list_elem_of_here.
Defined.

(** X14.  On a server with the delegating handler a pool thread that serves
    an EvaluateIELTS call is held until the network answers: as long as it
    has no answer the call cannot end, and any answer is taken.  Such a
    thread never takes more than 31 answers. *)
Theorem delegating_worker_blocks
    (self : ielts_service.IELTSService.t) (evs : list grpc.event)
    (s : grpc.System) (i : nat) (w : grpc.Worker) (request : EvaluationRequest) :
  grpc.exec (grpc.wait_for_termination (delegating_server self)) evs = Some s ->
  grpc.workers s !! i = Some w ->
  grpc.w_call w = EvaluateIELTSCall request ->
  grpc.terminated s = false ->
  (length (grpc.w_answers w) <= 31)%nat
  /\ (grpc.w_answers w = [] ->
      grpc.step s (grpc.Complete i) = None
      /\ forall o, is_Some (grpc.step s (grpc.Answer i o))).
Proof.
  intros Hexec Hi Hcall Ht.
  destruct (exec_ok _ _ _ Hexec) as (_ & Hw & _ & _).
  destruct w as [c answers p]. simpl in Hcall. subst c.
  destruct (worker_ok_lookup _ _ _ _ _ _ Hw Hi) as (p0 & Hp0 & Hfeed).
  destruct (delegating_program self request) as (rq & k & Hd & Hk).
  rewrite Hd in Hp0. injection Hp0 as <-. split.
  - exact (feed_bounded _ _ _ _ Hk Hfeed).
  - simpl. intros ->. simpl in Hfeed. injection Hfeed as <-.
    unfold grpc.step. rewrite Ht, Hi. by split.
Qed.

Lemma delegating_worker_blocks_witness :
  exists s w,
    grpc.exec
      (grpc.wait_for_termination
         (delegating_server ielts_service.IELTSService.__init__))
      [grpc.Arrive (EvaluateIELTSCall scenario_request); grpc.Schedule]
    = Some s
    /\ grpc.workers s !! 0%nat = Some w
    /\ (length (grpc.w_answers w) <= 31)%nat
    /\ (grpc.w_answers w = [] ->
        grpc.step s (grpc.Complete 0) = None
        /\ forall o, is_Some (grpc.step s (grpc.Answer 0 o))).
Proof.
  eexists _, _. split; [reflexivity |]. split; [reflexivity |].
  apply (delegating_worker_blocks ielts_service.IELTSService.__init__
           [grpc.Arrive (EvaluateIELTSCall scenario_request); grpc.Schedule]
           _ 0%nat _ scenario_request); reflexivity.
Defined.
